(** * SimpleClaude: the stream parser and the execution controller

    A shallow embedding of [parser.ts], [models.ts] and [api.ts] of the
    TypeScript port, and the properties of the specification that are
    about them.

    Conventions of the embedding.
    - A JavaScript string is the list of its UTF-16 code units.
    - A decoded JSON document is a value of [json]; [undefined] is the
      [None] of [option json].
    - A JavaScript number is idealised as an exact rational ([Q]);
      timestamps ([Date.getTime()]) are integers in milliseconds.
    - An exception raised inside a [try] block is the [Thrown] of [exc].
    - The built-ins [JSON.parse] and [Number.prototype.toString] are
      parameters of the development. *)

From Stdlib Require Import List Bool Arith ZArith NArith QArith Qminmax Qround Qpower Lia.
From Stdlib Require Import Strings.Ascii Strings.String.
Import ListNotations.

Set Implicit Arguments.
Set Warnings "-register-all".

(* ================================================================== *)
(** * JavaScript strings *)
(* ================================================================== *)

Definition char16 := N.
Definition jstr := list char16.

(** String literals.  An apostrophe of the literal stands for a double
    quote of the JavaScript string, so that JSON text stays readable. *)
Definition code_of_ascii (a : ascii) : char16 :=
  let n := N_of_ascii a in if N.eqb n 39 then 34%N else n.

Definition js (s : string) : jstr := List.map code_of_ascii (list_ascii_of_string s).

Definition NL : char16 := 10%N.
Definition LBRACE : char16 := 123%N.
Definition RBRACE : char16 := 125%N.

(** ECMAScript [WhiteSpace] and [LineTerminator] code points, the set
    [String.prototype.trim] strips. *)
Definition is_white_space (c : char16) : bool :=
  (N.leb 9 c && N.leb c 13) || N.eqb c 32 || N.eqb c 160 || N.eqb c 5760
  || (N.leb 8192 c && N.leb c 8202) || N.eqb c 8232 || N.eqb c 8233
  || N.eqb c 8239 || N.eqb c 8287 || N.eqb c 12288 || N.eqb c 65279.

Fixpoint trimStart (s : jstr) : jstr :=
  match s with
  | [] => []
  | c :: s' => if is_white_space c then trimStart s' else s
  end.

Definition trimEnd (s : jstr) : jstr := rev (trimStart (rev s)).

Definition trim (s : jstr) : jstr := trimEnd (trimStart s).

(** A string is truthy when it is not empty. *)
Definition nonempty (s : jstr) : bool :=
  match s with [] => false | _ :: _ => true end.

Fixpoint jstr_eqb (a b : jstr) : bool :=
  match a, b with
  | [], [] => true
  | x :: a', y :: b' => N.eqb x y && jstr_eqb a' b'
  | _, _ => false
  end.

Fixpoint startsWith (s pre : jstr) : bool :=
  match pre, s with
  | [], _ => true
  | _ :: _, [] => false
  | x :: pre', y :: s' => N.eqb x y && startsWith s' pre'
  end.

Definition endsWith (s suf : jstr) : bool := startsWith (rev s) (rev suf).

Definition includes (s : jstr) (c : char16) : bool := existsb (N.eqb c) s.

(** [indexOf] of a one-character needle; -1 when absent. *)
Fixpoint indexOf (s : jstr) (c : char16) : Z :=
  match s with
  | [] => (-1)%Z
  | x :: s' =>
      if N.eqb x c then 0%Z
      else let i := indexOf s' c in if (i <? 0)%Z then (-1)%Z else (i + 1)%Z
  end.

Definition clamp_index (s : jstr) (i : Z) : nat :=
  Nat.min (Z.to_nat i) (List.length s).

(** [s.substring(a, b)]: indices are clamped and swapped when needed. *)
Definition substring (s : jstr) (a b : Z) : jstr :=
  let a' := clamp_index s a in
  let b' := clamp_index s b in
  firstn (Nat.max a' b' - Nat.min a' b') (skipn (Nat.min a' b') s).

(** [s.substring(a)]. *)
Definition substring_from (s : jstr) (a : Z) : jstr := skipn (clamp_index s a) s.

(** [s.split(sep)] for a one-character separator: never empty. *)
Fixpoint split (s : jstr) (sep : char16) : list jstr :=
  match s with
  | [] => [[]]
  | c :: s' =>
      if N.eqb c sep then [] :: split s' sep
      else match split s' sep with
           | l :: ls => (c :: l) :: ls
           | [] => [[c]]
           end
  end.

(** [parts.join(sep)] on strings. *)
Fixpoint join (parts : list jstr) (sep : jstr) : jstr :=
  match parts with
  | [] => []
  | [p] => p
  | p :: ps => p ++ sep ++ join ps sep
  end.

(* ================================================================== *)
(** * Decoded JSON values and the dynamic operations used on them *)
(* ================================================================== *)

Inductive json : Type :=
| JNull
| JBool (b : bool)
| JNumber (q : Q)
| JString (s : jstr)
| JArray (items : list json)
| JObject (props : list (jstr * json)).

(** A JavaScript value as far as this program sees one: [None] is
    [undefined]. *)
Definition jsval := option json.

(** Outcome of code that runs inside a [try] block. *)
Inductive exc (A : Type) : Type :=
| Ret (a : A)
| Thrown.
Arguments Thrown {A}.

Definition bind {A B : Type} (m : exc A) (k : A -> exc B) : exc B :=
  match m with
  | Ret a => k a
  | Thrown => Thrown
  end.

Notation "x <- m ;; k" := (bind m (fun x => k))
  (at level 61, m at next level, right associativity).

Fixpoint lookup (props : list (jstr * json)) (k : jstr) : jsval :=
  match props with
  | [] => None
  | (k', v) :: rest => if jstr_eqb k' k then Some v else lookup rest k
  end.

(** [v.k] for the property names this program reads ([type], [subtype],
    [message], [content], [text], ...), none of which is a built-in
    property of a string, number, boolean or array: only an object can
    hold them, and reading a property of [null] raises a TypeError. *)
Definition get_prop (v : json) (k : jstr) : exc jsval :=
  match v with
  | JNull => Thrown
  | JObject props => Ret (lookup props k)
  | _ => Ret None
  end.

(** [v.k] when [v] itself may be [undefined]. *)
Definition get_prop_val (v : jsval) (k : jstr) : exc jsval :=
  match v with
  | None => Thrown
  | Some j => get_prop j k
  end.

Definition Qis_zero (q : Q) : bool := Z.eqb (Qnum q) 0.

(** ToBoolean. *)
Definition truthy (v : jsval) : bool :=
  match v with
  | None => false
  | Some JNull => false
  | Some (JBool b) => b
  | Some (JNumber q) => negb (Qis_zero q)
  | Some (JString s) => nonempty s
  | Some (JArray _) => true
  | Some (JObject _) => true
  end.

(** [v || d] with a default that is a JSON value. *)
Definition or_default (v : jsval) (d : json) : json :=
  match v with
  | Some j => if truthy v then j else d
  | None => d
  end.

(** [v || null]. *)
Definition or_null (v : jsval) : jsval :=
  if truthy v then v else Some JNull.

(** [v === 'literal']. *)
Definition is_string (v : jsval) (lit : jstr) : bool :=
  match v with
  | Some (JString s) => jstr_eqb s lit
  | _ => false
  end.

(** [typeof v === 'object']. *)
Definition typeof_object (v : json) : bool :=
  match v with
  | JNull | JArray _ | JObject _ => true
  | _ => false
  end.

(** The items a [for ... of] loop visits; a number, a boolean or a plain
    object is not iterable.  A string is visited character by character
    (by code unit here; the program only reads [.type] of an item, which
    is [undefined] for every string). *)
Definition iterate (v : json) : exc (list json) :=
  match v with
  | JArray items => Ret items
  | JString s => Ret (List.map (fun c => JString [c]) s)
  | _ => Thrown
  end.

Section SimpleClaude.

(** [JSON.parse]: the decoded value, or [None] for a SyntaxError. *)
Variable JSON_parse : jstr -> option json.

(** [Number.prototype.toString]. *)
Variable Number_toString : Q -> jstr.

(** [String(v)]; inside [Array.prototype.join] a [null] item prints as
    the empty string. *)
Fixpoint ToString (v : json) : jstr :=
  match v with
  | JNull => js "null"
  | JBool true => js "true"
  | JBool false => js "false"
  | JNumber q => Number_toString q
  | JString s => s
  | JArray items =>
      join (List.map (fun x => match x with JNull => [] | _ => ToString x end) items)
           (js ",")
  | JObject _ => js "[object Object]"
  end.

(** [items.join(sep)] on an array of values. *)
Definition join_values (items : list json) (sep : jstr) : jstr :=
  join (List.map (fun x => match x with JNull => [] | _ => ToString x end) items) sep.

(* ================================================================== *)
(** * models.ts: events *)
(* ================================================================== *)

(** [{...message_data, content: content_list}]: the object is kept as
    the pair of the spread source and the rebuilt content list. *)
Record AssistantMessage := {
  am_message_data : json;
  am_content : list json
}.

Record AssistantResponse := {
  ar_message : AssistantMessage;
  ar_parent_tool_use_id : jsval;
  ar_session_id : jsval
}.

Record ToolResultContent := {
  tool_use_id : json;
  content : jstr;
  is_error : json
}.

Record UserMessage := {
  um_message_data : json;
  um_content : list ToolResultContent
}.

Record UserResponse := {
  ur_message : UserMessage;
  ur_parent_tool_use_id : jsval;
  ur_session_id : jsval
}.

(** What [parse_line] returns when it does not return [null].  A
    [SystemInit] and a [ResultSummary] are the decoded object itself
    ([data as SystemInit], [data as ResultSummary]). *)
Inductive Event :=
| EvSystemInit (data : json)
| EvAssistant (r : AssistantResponse)
| EvUser (r : UserResponse)
| EvResult (data : json).

Record ClaudeResponse := {
  cr_system_init : jsval;
  cr_assistant_responses : list AssistantResponse;
  cr_user_responses : list UserResponse;
  cr_result_summary : jsval;
  raw_response : jstr
}.

(* ================================================================== *)
(** * parser.ts: ClaudeResponseParser *)
(* ================================================================== *)

Record ClaudeResponseParser := {
  system_init : jsval;
  assistant_responses : list AssistantResponse;
  user_responses : list UserResponse;
  result_summary : jsval;
  raw_lines : list jstr;
  events : list json
}.

(** [new ClaudeResponseParser()]. *)
Definition new_parser : ClaudeResponseParser :=
  {| system_init := None; assistant_responses := []; user_responses := [];
     result_summary := None; raw_lines := []; events := [] |}.

(** The loop over [message_data.content] of the assistant branch. *)
Fixpoint assistant_content (items : list json) : exc (list json) :=
  match items with
  | [] => Ret []
  | item :: rest =>
      content_type <- get_prop item (js "type") ;;
      tl <- assistant_content rest ;;
      if is_string content_type (js "text") then Ret (item :: tl)
      else if is_string content_type (js "thinking") then Ret (item :: tl)
      else if is_string content_type (js "tool_use") then Ret (item :: tl)
      else Ret tl
  end.

(** The loop over [content_field] that collects [text_parts]. *)
Fixpoint text_parts (objs : list json) : exc (list json) :=
  match objs with
  | [] => Ret []
  | content_obj :: rest =>
      if typeof_object content_obj then
        ty <- get_prop content_obj (js "type") ;;
        if is_string ty (js "text") then
          tx <- get_prop content_obj (js "text") ;;
          tl <- text_parts rest ;;
          Ret (or_default tx (JString []) :: tl)
        else text_parts rest
      else text_parts rest
  end.

(** The text of one [tool_result] block. *)
Definition content_text (content_field : json) : exc jstr :=
  match content_field with
  | JArray objs =>
      parts <- text_parts objs ;;
      Ret (join_values parts [])
  | _ => Ret (ToString content_field)
  end.

(** The loop over [message_data.content] of the user branch. *)
Fixpoint user_content (items : list json) : exc (list ToolResultContent) :=
  match items with
  | [] => Ret []
  | item :: rest =>
      ty <- get_prop item (js "type") ;;
      if is_string ty (js "tool_result") then
        c <- get_prop item (js "content") ;;
        text <- content_text (or_default c (JString [])) ;;
        id <- get_prop item (js "tool_use_id") ;;
        err <- get_prop item (js "is_error") ;;
        tl <- user_content rest ;;
        Ret ({| tool_use_id := or_default id (JString []);
                content := text;
                is_error := or_default err (JBool false) |} :: tl)
      else user_content rest
  end.

Definition record_line (p : ClaudeResponseParser) (cleanLine : jstr) (data : json)
  : ClaudeResponseParser :=
  {| system_init := system_init p;
     assistant_responses := assistant_responses p;
     user_responses := user_responses p;
     result_summary := result_summary p;
     raw_lines := raw_lines p ++ [cleanLine];
     events := events p ++ [data] |}.

Definition set_system_init (p : ClaudeResponseParser) (v : json) : ClaudeResponseParser :=
  {| system_init := Some v;
     assistant_responses := assistant_responses p;
     user_responses := user_responses p;
     result_summary := result_summary p;
     raw_lines := raw_lines p;
     events := events p |}.

Definition push_assistant (p : ClaudeResponseParser) (r : AssistantResponse)
  : ClaudeResponseParser :=
  {| system_init := system_init p;
     assistant_responses := assistant_responses p ++ [r];
     user_responses := user_responses p;
     result_summary := result_summary p;
     raw_lines := raw_lines p;
     events := events p |}.

Definition push_user (p : ClaudeResponseParser) (r : UserResponse) : ClaudeResponseParser :=
  {| system_init := system_init p;
     assistant_responses := assistant_responses p;
     user_responses := user_responses p ++ [r];
     result_summary := result_summary p;
     raw_lines := raw_lines p;
     events := events p |}.

Definition set_result_summary (p : ClaudeResponseParser) (v : json) : ClaudeResponseParser :=
  {| system_init := system_init p;
     assistant_responses := assistant_responses p;
     user_responses := user_responses p;
     result_summary := Some v;
     raw_lines := raw_lines p;
     events := events p |}.

(** [data as ResultSummary]: a type assertion is erased by the compiler;
    it inspects nothing and cannot throw. *)
Definition as_ResultSummary (data : json) : exc json := Ret data.

Definition opt_prop (k : jstr) (v : jsval) : list (jstr * json) :=
  match v with
  | Some j => [(k, j)]
  | None => []
  end.

(** The object built in the [catch] clause of the result branch. *)
Definition minimal_result_summary (data : json) : exc json :=
  subtype <- get_prop data (js "subtype") ;;
  is_err <- get_prop data (js "is_error") ;;
  session_id <- get_prop data (js "session_id") ;;
  duration_ms <- get_prop data (js "duration_ms") ;;
  duration_api_ms <- get_prop data (js "duration_api_ms") ;;
  num_turns <- get_prop data (js "num_turns") ;;
  result <- get_prop data (js "result") ;;
  total_cost_usd <- get_prop data (js "total_cost_usd") ;;
  usage <- get_prop data (js "usage") ;;
  Ret (JObject
         ([ (js "type", JString (js "result"));
            (js "subtype", or_default subtype (JString (js "unknown")));
            (js "is_error", or_default is_err (JBool true));
            (js "session_id", or_default session_id (JString []));
            (js "duration_ms", or_default duration_ms (JNumber 0));
            (js "duration_api_ms", or_default duration_api_ms (JNumber 0));
            (js "num_turns", or_default num_turns (JNumber 0));
            (js "result", or_default result (JString []));
            (js "total_cost_usd", or_default total_cost_usd (JNumber 0)) ]
          ++ opt_prop (js "usage") usage)).

(** The body of [parse_line] after the two [push] calls: what runs
    between [JSON.parse] and the outer [catch]. *)
Definition classify (p : ClaudeResponseParser) (data : json)
  : exc (ClaudeResponseParser * option Event) :=
  ty <- get_prop data (js "type") ;;
  subtype <- get_prop data (js "subtype") ;;
  if is_string ty (js "system") && is_string subtype (js "init") then
    Ret (set_system_init p data, Some (EvSystemInit data))
  else if is_string ty (js "assistant") then
    m <- get_prop data (js "message") ;;
    let message_data := or_default m (JObject []) in
    c <- get_prop message_data (js "content") ;;
    items <- iterate (or_default c (JArray [])) ;;
    content_list <- assistant_content items ;;
    parent <- get_prop data (js "parent_tool_use_id") ;;
    sid <- get_prop data (js "session_id") ;;
    let assistant_response :=
      {| ar_message := {| am_message_data := message_data; am_content := content_list |};
         ar_parent_tool_use_id := parent;
         ar_session_id := sid |} in
    Ret (push_assistant p assistant_response, Some (EvAssistant assistant_response))
  else if is_string ty (js "user") then
    m <- get_prop data (js "message") ;;
    let message_data := or_default m (JObject []) in
    c <- get_prop message_data (js "content") ;;
    items <- iterate (or_default c (JArray [])) ;;
    content_list <- user_content items ;;
    parent <- get_prop data (js "parent_tool_use_id") ;;
    sid <- get_prop data (js "session_id") ;;
    let user_response :=
      {| ur_message := {| um_message_data := message_data; um_content := content_list |};
         ur_parent_tool_use_id := parent;
         ur_session_id := sid |} in
    Ret (push_user p user_response, Some (EvUser user_response))
  else if is_string ty (js "result") then
    match as_ResultSummary data with
    | Ret rs => Ret (set_result_summary p rs, Some (EvResult rs))
    | Thrown =>
        rs <- minimal_result_summary data ;;
        Ret (set_result_summary p rs, Some (EvResult rs))
    end
  else Ret (p, None).

(** [parse_line]: the new parser state and the returned event ([None]
    for [null]). *)
Definition parse_line (p : ClaudeResponseParser) (line : jstr)
  : ClaudeResponseParser * option Event :=
  if negb (nonempty (trim line)) then (p, None)
  else
    let cleanLine := trim line in
    if negb (startsWith cleanLine [LBRACE]) then (p, None)
    else if negb (endsWith cleanLine [RBRACE]) then (p, None)
    else
      match JSON_parse cleanLine with
      | None => (p, None)
      | Some data =>
          let p1 := record_line p cleanLine data in
          match classify p1 data with
          | Ret r => r
          | Thrown => (p1, None)
          end
      end.

(** The [for] loop of [parse_stream]; the events [parse_line] returned
    are collected in order (the source discards them). *)
Fixpoint parse_lines (p : ClaudeResponseParser) (lines : list jstr)
  : ClaudeResponseParser * list Event :=
  match lines with
  | [] => (p, [])
  | line :: rest =>
      let (p1, ev) := parse_line p line in
      let (p2, evs) := parse_lines p1 rest in
      (p2, match ev with Some e => e :: evs | None => evs end)
  end.

(** The events [parse_line] returns in the course of [parse_stream]. *)
Definition parse_stream_events (p : ClaudeResponseParser) (stream : jstr) : list Event :=
  snd (parse_lines p (split (trim stream) NL)).

(** [parse_stream]: the parser after the loop and the aggregate built
    from its fields. *)
Definition parse_stream (p : ClaudeResponseParser) (stream : jstr)
  : ClaudeResponseParser * ClaudeResponse :=
  let lines := split (trim stream) NL in
  let p' := fst (parse_lines p lines) in
  (p', {| cr_system_init := system_init p';
          cr_assistant_responses := assistant_responses p';
          cr_user_responses := user_responses p';
          cr_result_summary := result_summary p';
          raw_response := stream |}).

(** [this.result_summary?.total_cost_usd || null]. *)
Definition get_cost (p : ClaudeResponseParser) : jsval :=
  match result_summary p with
  | None => Some JNull
  | Some rs =>
      match get_prop rs (js "total_cost_usd") with
      | Ret v => or_null v
      | Thrown => Some JNull
      end
  end.

(** [!v]. *)
Definition js_not (v : jsval) : bool := negb (truthy v).

(** [was_successful]; it raises a TypeError when [result_summary] is
    [null], which no path of the parser ever stores there. *)
Definition was_successful (p : ClaudeResponseParser) : exc bool :=
  match result_summary p with
  | None => Ret false
  | Some rs =>
      e <- get_prop rs (js "is_error") ;;
      s <- get_prop rs (js "subtype") ;;
      Ret (js_not e && is_string s (js "success"))
  end.

(** [parse_claude_stream]: a fresh parser on the whole stream. *)
Definition parse_claude_stream (stream : jstr) : ClaudeResponse :=
  snd (parse_stream new_parser stream).

(* ================================================================== *)
(** * parser.ts: StreamingResponseParser *)
(* ================================================================== *)

Record StreamConfig := {
  buffer_size : Z;
  timeout_between_chunks : Q;
  yield_raw : bool
}.

Definition DEFAULT_STREAM_CONFIG : StreamConfig :=
  {| buffer_size := 65536; timeout_between_chunks := 30; yield_raw := false |}.

Record StreamingResponseParser := {
  config : StreamConfig;
  buffer : jstr;
  parser : ClaudeResponseParser
}.

Definition new_streaming_parser (cfg : StreamConfig) : StreamingResponseParser :=
  {| config := cfg; buffer := []; parser := new_parser |}.

(** What the generators yield: a classified event, or the raw line in
    raw mode. *)
Inductive Yielded :=
| YEvent (e : Event)
| YRaw (s : jstr).

(** The trim-and-dispatch block that [parse_chunk] runs on each complete
    line and [flush] on the rest of the buffer: the new state of the
    inner parser and what is yielded. *)
Definition dispatch (cfg : StreamConfig) (p : ClaudeResponseParser) (text : jstr)
  : ClaudeResponseParser * list Yielded :=
  let cleanLine := trim text in
  if nonempty cleanLine && startsWith cleanLine [LBRACE] then
    if yield_raw cfg then (p, [YRaw cleanLine])
    else
      match parse_line p cleanLine with
      | (p', Some event) => (p', [YEvent event])
      | (p', None) => (p', [])
      end
  else (p, []).

(** The [while (this.buffer.includes('\n'))] loop, run for at most
    [fuel] iterations. *)
Fixpoint parse_chunk_loop (fuel : nat) (sp : StreamingResponseParser)
  : StreamingResponseParser * list Yielded :=
  match fuel with
  | O => (sp, [])
  | S fuel' =>
      if includes (buffer sp) NL then
        let newlineIndex := indexOf (buffer sp) NL in
        let line := substring (buffer sp) 0 newlineIndex in
        let buffer' := substring_from (buffer sp) (newlineIndex + 1) in
        let (p', out) := dispatch (config sp) (parser sp) line in
        let (sp', outs) :=
          parse_chunk_loop fuel'
            {| config := config sp; buffer := buffer'; parser := p' |} in
        (sp', out ++ outs)
      else (sp, [])
  end.

(** [parse_chunk], with the generator run to its end.  Every iteration
    of the loop removes at least the newline it found, so the length of
    the buffer bounds the number of iterations. *)
Definition parse_chunk (sp : StreamingResponseParser) (chunk : jstr)
  : StreamingResponseParser * list Yielded :=
  let sp1 := {| config := config sp; buffer := buffer sp ++ chunk; parser := parser sp |} in
  parse_chunk_loop (List.length (buffer sp1)) sp1.

Definition flush (sp : StreamingResponseParser) : StreamingResponseParser * list Yielded :=
  let (p', out) := dispatch (config sp) (parser sp) (buffer sp) in
  ({| config := config sp; buffer := []; parser := p' |}, out).

Definition get_response (sp : StreamingResponseParser) : ClaudeResponse :=
  {| cr_system_init := system_init (parser sp);
     cr_assistant_responses := assistant_responses (parser sp);
     cr_user_responses := user_responses (parser sp);
     cr_result_summary := result_summary (parser sp);
     raw_response := join (raw_lines (parser sp)) [NL] |}.

(** The [for (const chunk of stream)] loop of [stream_parse_generator]. *)
Fixpoint feed_chunks (sp : StreamingResponseParser) (chunks : list jstr)
  : StreamingResponseParser * list Yielded :=
  match chunks with
  | [] => (sp, [])
  | chunk :: rest =>
      let (sp1, out) := parse_chunk sp chunk in
      let (sp2, outs) := feed_chunks sp1 rest in
      (sp2, out ++ outs)
  end.

(** [stream_parse_generator]: every chunk through [parse_chunk], then
    one [flush]. *)
Definition stream_parse (sp : StreamingResponseParser) (chunks : list jstr)
  : StreamingResponseParser * list Yielded :=
  let (sp1, out) := feed_chunks sp chunks in
  let (sp2, last) := flush sp1 in
  (sp2, out ++ last).

Definition stream_parse_generator (chunks : list jstr) (cfg : StreamConfig) : list Yielded :=
  snd (stream_parse (new_streaming_parser cfg) chunks).

(* ================================================================== *)
(** * models.ts: configuration, Session, RateLimitState *)
(* ================================================================== *)

Record RetryConfig := {
  max_retries : nat;
  initial_delay : Q;
  max_delay : Q;
  exponential_base : Q;
  retry_on : list jstr
}.

Record RateLimitConfig := {
  requests_per_minute : Z;
  requests_per_hour : Z;
  burst_size : Z;
  enabled : bool
}.

Record SessionConfig := {
  maintain_context : bool;
  max_history_size : Z;
  persist_to_file : option jstr;
  auto_save : bool
}.

(** The fields of [APIConfig] that [execute] and [execute_stream] read
    outside of [_build_command]. *)
Record APIConfig := {
  retry : RetryConfig;
  rate_limit : RateLimitConfig;
  streaming : StreamConfig;
  session_config : SessionConfig
}.

Definition DEFAULT_RETRY_CONFIG : RetryConfig :=
  {| max_retries := 3; initial_delay := 1; max_delay := 60; exponential_base := 2;
     retry_on := [js "TimeoutError"; js "ConnectionError"] |}.

Definition DEFAULT_RATE_LIMIT_CONFIG : RateLimitConfig :=
  {| requests_per_minute := 60; requests_per_hour := 1000; burst_size := 10;
     enabled := true |}.

Definition DEFAULT_SESSION_CONFIG : SessionConfig :=
  {| maintain_context := true; max_history_size := 100; persist_to_file := None;
     auto_save := true |}.

Definition DEFAULT_API_CONFIG : APIConfig :=
  {| retry := DEFAULT_RETRY_CONFIG; rate_limit := DEFAULT_RATE_LIMIT_CONFIG;
     streaming := DEFAULT_STREAM_CONFIG; session_config := DEFAULT_SESSION_CONFIG |}.

(** What the operator [+] gives, and so what a running total kept in
    a [number] field can hold: a number, [NaN], or a string once an
    operand was a string, an array or an object.  Sums of numbers are
    exact. *)
Inductive jsnum :=
| Num (q : Q)
| NaN
| Text (s : jstr).

(** ToPrimitive gives a string: [+] concatenates. *)
Definition is_text (v : jsval) : bool :=
  match v with
  | Some (JString _) | Some (JArray _) | Some (JObject _) => true
  | _ => false
  end.

(** ToString of an operand. *)
Definition to_text (v : jsval) : jstr :=
  match v with
  | None => js "undefined"
  | Some j => ToString j
  end.

(** ToNumber of an operand that is not a string ([+] concatenates
    before it would convert one). *)
Definition to_num (v : jsval) : jsnum :=
  match v with
  | None => NaN
  | Some JNull => Num 0
  | Some (JBool true) => Num 1
  | Some (JBool false) => Num 0
  | Some (JNumber q) => Num q
  | Some _ => NaN
  end.

Definition num_text (n : jsnum) : jstr :=
  match n with
  | Num q => Number_toString q
  | NaN => js "NaN"
  | Text s => s
  end.

(** [a + b] on two results of [+]. *)
Definition num_add (a b : jsnum) : jsnum :=
  match a, b with
  | Num x, Num y => Num (x + y)
  | Text s, _ => Text (s ++ num_text b)
  | _, Text s => Text (num_text a ++ s)
  | _, _ => NaN
  end.

(** [a + b] on two values read from decoded objects. *)
Definition js_add (a b : jsval) : jsnum :=
  if is_text a || is_text b then Text (to_text a ++ to_text b)
  else num_add (to_num a) (to_num b).

(** [total += v] for a value read from a decoded object. *)
Definition add_value (total : jsnum) (v : jsval) : jsnum :=
  match total with
  | Text s => Text (s ++ to_text v)
  | _ => if is_text v then Text (num_text total ++ to_text v)
         else num_add total (to_num v)
  end.

Inductive Turn :=
| TAssistant (r : AssistantResponse)
| TUser (r : UserResponse).

Record Session := {
  session_id : jsval;
  created_at : Z;
  last_activity : Z;
  message_history : list Turn;
  total_tokens : jsnum;
  total_cost : jsnum
}.

(** [new SessionImpl()] at time [now]. *)
Definition new_session (now : Z) : Session :=
  {| session_id := None; created_at := now; last_activity := now;
     message_history := []; total_tokens := Num 0; total_cost := Num 0 |}.

(** [response.message.usage] of an assistant turn: the spread copies it
    from [message_data] (the rebuilt key is [content], not [usage]). *)
Definition message_usage (r : AssistantResponse) : jsval :=
  match get_prop (am_message_data (ar_message r)) (js "usage") with
  | Ret v => v
  | Thrown => None
  end.

Definition usage_tokens (usage : jsval) : jsnum :=
  match usage with
  | Some u =>
      match get_prop u (js "input_tokens"), get_prop u (js "output_tokens") with
      | Ret i, Ret o => js_add i o
      | _, _ => NaN
      end
  | None => NaN
  end.

Definition add_response (s : Session) (response : Turn) (now : Z) : Session :=
  {| session_id := session_id s;
     created_at := created_at s;
     last_activity := now;
     message_history := message_history s ++ [response];
     total_tokens :=
       match response with
       | TAssistant r =>
           if truthy (message_usage r)
           then num_add (total_tokens s) (usage_tokens (message_usage r))
           else total_tokens s
       | TUser _ => total_tokens s
       end;
     total_cost := total_cost s |}.

Definition clear_history (s : Session) : Session :=
  {| session_id := session_id s;
     created_at := created_at s;
     last_activity := last_activity s;
     message_history := [];
     total_tokens := Num 0;
     total_cost := Num 0 |}.

Record RateLimitState := {
  requests_this_minute : Z;
  requests_this_hour : Z;
  minute_reset_time : Z;
  hour_reset_time : Z;
  last_request_time : option Z
}.

(** [new RateLimitStateImpl()] at time [now]. *)
Definition new_rate_limit_state (now : Z) : RateLimitState :=
  {| requests_this_minute := 0; requests_this_hour := 0;
     minute_reset_time := now; hour_reset_time := now;
     last_request_time := None |}.

(** The two lazy resets at the head of [should_delay]. *)
Definition reset_minute (s : RateLimitState) (now : Z) : RateLimitState :=
  if (now - minute_reset_time s >=? 60000)%Z then
    {| requests_this_minute := 0;
       requests_this_hour := requests_this_hour s;
       minute_reset_time := now;
       hour_reset_time := hour_reset_time s;
       last_request_time := last_request_time s |}
  else s.

Definition reset_hour (s : RateLimitState) (now : Z) : RateLimitState :=
  if (now - hour_reset_time s >=? 3600000)%Z then
    {| requests_this_minute := requests_this_minute s;
       requests_this_hour := 0;
       minute_reset_time := minute_reset_time s;
       hour_reset_time := now;
       last_request_time := last_request_time s |}
  else s.

(** [should_delay(config)] when [new Date()] reads [now]: the state
    after the call and the returned pair (delay in seconds). *)
Definition should_delay (s : RateLimitState) (cfg : RateLimitConfig) (now : Z)
  : RateLimitState * (bool * Q) :=
  let s1 := reset_minute s now in
  let s2 := reset_hour s1 now in
  if (requests_this_minute s2 >=? requests_per_minute cfg)%Z then
    let delay := 60 - inject_Z (now - minute_reset_time s2) / 1000 in
    (s2, (true, Qmax 0 delay))
  else if (requests_this_hour s2 >=? requests_per_hour cfg)%Z then
    let delay := 3600 - inject_Z (now - hour_reset_time s2) / 1000 in
    (s2, (true, Qmax 0 delay))
  else (s2, (false, 0)).

Definition record_request (s : RateLimitState) (now : Z) : RateLimitState :=
  {| requests_this_minute := requests_this_minute s + 1;
     requests_this_hour := requests_this_hour s + 1;
     minute_reset_time := minute_reset_time s;
     hour_reset_time := hour_reset_time s;
     last_request_time := Some now |}.

(* ================================================================== *)
(** * api.ts: ClaudeAPI *)
(* ================================================================== *)

Record ClaudeAPI := {
  api_config : APIConfig;
  session : option Session;
  rate_limiter : option RateLimitState
}.

(** The constructor, at time [now]. *)
Definition new_api (cfg : APIConfig) (now : Z) : ClaudeAPI :=
  {| api_config := cfg;
     session := if maintain_context (session_config cfg)
                then Some (new_session now) else None;
     rate_limiter := if enabled (rate_limit cfg)
                     then Some (new_rate_limit_state now) else None |}.

(** How one call of [_run_command] ends: the promise resolves with the
    standard output, or rejects with an error whose constructor has the
    given name. *)
Inductive CommandResult :=
| Resolved (stdout : jstr)
| Rejected (error_name : jstr).

(** What the controller does to the outside world, in order.
    [ActCheckLimit now] is a call of [should_delay], which reads the
    clock; [ActSleep ms] a call of [sleep(ms)]; [ActSaveSession] a call
    of [save_session] that reaches the write of the file. *)
Inductive Action :=
| ActCheckLimit (now : Z)
| ActSleep (ms : Q)
| ActRunCommand (attempt : nat) (r : CommandResult)
| ActSpawn
| ActRecordRequest (now : Z)
| ActExit (code : Z)
| ActSaveSession.

(** The environment of one [execute] call.  For each attempt: how the
    command ends and how long it ran (milliseconds); whether
    [fs.promises.writeFile] in [save_session] writes the file ([None])
    or rejects with an error of the given name; and the times at which
    the timers of [sleep] fire, for the sleep of the rate-limit check
    before the attempt and for the backoff sleep after it.  A timer
    fires when the host decides: nothing ties these times to the
    milliseconds asked for. *)
Record Environment := {
  command :> nat -> CommandResult * Z;
  write_error : nat -> option jstr;
  limit_wake : nat -> Z;
  backoff_wake : nat -> Z
}.

Definition set_rate_limiter (api : ClaudeAPI) (rl : option RateLimitState) : ClaudeAPI :=
  {| api_config := api_config api; session := session api; rate_limiter := rl |}.

Definition set_session (api : ClaudeAPI) (s : option Session) : ClaudeAPI :=
  {| api_config := api_config api; session := s; rate_limiter := rate_limiter api |}.

(** [_check_rate_limit]: the controller and the clock after the call,
    and what it did; [wake] is the time at which its sleep, if it makes
    one, ends. *)
Definition _check_rate_limit (api : ClaudeAPI) (clock wake : Z)
  : ClaudeAPI * Z * list Action :=
  match rate_limiter api with
  | None => (api, clock, [])
  | Some rl =>
      if negb (enabled (rate_limit (api_config api))) then (api, clock, [])
      else
        let '(rl', (delay, delay_seconds)) :=
          should_delay rl (rate_limit (api_config api)) clock in
        if delay
        then (set_rate_limiter api (Some rl'), wake,
              [ActCheckLimit clock; ActSleep (delay_seconds * 1000)])
        else (set_rate_limiter api (Some rl'), clock, [ActCheckLimit clock])
  end.

(** [retry_on.includes(error.constructor.name)]. *)
Definition _should_retry (api : ClaudeAPI) (error_name : jstr) : bool :=
  existsb (jstr_eqb error_name) (retry_on (retry (api_config api))).

(** [Math.pow(base, attempt)] for the loop counter [attempt]. *)
Definition Math_pow (base : Q) (attempt : nat) : Q := Qpower base (Z.of_nat attempt).

Definition _calculate_retry_delay (api : ClaudeAPI) (attempt : nat) : Q :=
  let r := retry (api_config api) in
  Qmin (initial_delay r * Math_pow (exponential_base r) attempt) (max_delay r).

(** [if (this.rate_limiter) this.rate_limiter.record_request()]. *)
Definition record_if_limited (api : ClaudeAPI) (now : Z) : ClaudeAPI * list Action :=
  match rate_limiter api with
  | Some rl => (set_rate_limiter api (Some (record_request rl now)), [ActRecordRequest now])
  | None => (api, [])
  end.

Definition set_session_id (s : Session) (v : jsval) : Session :=
  {| session_id := v; created_at := created_at s; last_activity := last_activity s;
     message_history := message_history s; total_tokens := total_tokens s;
     total_cost := total_cost s |}.

Definition add_cost (s : Session) (v : jsval) : Session :=
  {| session_id := session_id s; created_at := created_at s;
     last_activity := last_activity s; message_history := message_history s;
     total_tokens := total_tokens s;
     total_cost := add_value (total_cost s) v |}.

Definition prop_or_undefined (v : jsval) (k : jstr) : jsval :=
  match get_prop_val v k with
  | Ret x => x
  | Thrown => None
  end.

(** [this.session.total_cost += response.result_summary.total_cost_usd],
    guarded by [if (response.result_summary)]. *)
Definition add_result_cost (s : Session) (response : ClaudeResponse) : Session :=
  if truthy (cr_result_summary response)
  then add_cost s (prop_or_undefined (cr_result_summary response) (js "total_cost_usd"))
  else s.

(** The block [if (this.session && response.system_init) { ... }] of
    [execute], for an attached session. *)
Definition update_session (s : Session) (response : ClaudeResponse) (now : Z) : Session :=
  if truthy (cr_system_init response) then
    let s1 := set_session_id s (prop_or_undefined (cr_system_init response) (js "session_id")) in
    let s2 := fold_left (fun acc r => add_response acc (TAssistant r) now)
                        (cr_assistant_responses response) s1 in
    let s3 := fold_left (fun acc r => add_response acc (TUser r) now)
                        (cr_user_responses response) s2 in
    add_result_cost s3 response
  else s.

(** The guard [this.session && auto_save && persist_to_file] around
    the call of [save_session]. *)
Definition saves_session (api : ClaudeAPI) : bool :=
  match session api, persist_to_file (session_config (api_config api)) with
  | Some _, Some path => auto_save (session_config (api_config api)) && nonempty path
  | _, _ => false
  end.

Definition save_actions (api : ClaudeAPI) : list Action :=
  if saves_session api then [ActSaveSession] else [].

Inductive ExecResult :=
| Returned (response : ClaudeResponse)
| Raised (error_name : jstr).

(** How one pass through the [try] block of [execute] ends: at its
    [return], or in the [catch] clause with the error raised. *)
Inductive TryResult :=
| Completed (response : ClaudeResponse)
| Caught (error_name : jstr).

(** The [try] block of [execute] at attempt number [attempt]: the
    rate-limit check, the command, and when the command resolves the
    recording, the parse, the session update and the save.  A
    rejection of [_run_command] or of [save_session] ends the block
    where it occurs, with what was done before left in place. *)
Definition try_block (env : Environment) (attempt : nat) (api : ClaudeAPI) (clock : Z)
  : TryResult * ClaudeAPI * Z * list Action :=
  let '(api1, clock1, tr1) := _check_rate_limit api clock (limit_wake env attempt) in
  let (result, elapsed) := env attempt in
  let clock2 := (clock1 + elapsed)%Z in
  match result with
  | Resolved stdout =>
      let (api2, tr2) := record_if_limited api1 clock2 in
      let response := parse_claude_stream stdout in
      let api3 :=
        match session api2 with
        | Some s => set_session api2 (Some (update_session s response clock2))
        | None => api2
        end in
      (match (if saves_session api3 then write_error env attempt else None) with
       | None => Completed response
       | Some error_name => Caught error_name
       end,
       api3, clock2, tr1 ++ [ActRunCommand attempt result] ++ tr2 ++ save_actions api3)
  | Rejected error_name =>
      (Caught error_name, api1, clock2, tr1 ++ [ActRunCommand attempt result])
  end.

(** The retry loop of [execute] from attempt number [attempt], with
    [remaining] iterations left before [attempt] passes [max_retries]:
    the [try] block, then the [catch] clause. *)
Fixpoint execute_loop (env : Environment) (remaining attempt : nat)
    (last_error : option jstr) (api : ClaudeAPI) (clock : Z)
  : ExecResult * ClaudeAPI * Z * list Action :=
  match remaining with
  | O => (Raised (match last_error with Some e => e | None => js "Error" end),
          api, clock, [])
  | S remaining' =>
      let '(outcome, api1, clock1, tr1) := try_block env attempt api clock in
      match outcome with
      | Completed response => (Returned response, api1, clock1, tr1)
      | Caught error_name =>
          if _should_retry api1 error_name
             && (attempt <? max_retries (retry (api_config api1)))%nat
          then
            let delay := _calculate_retry_delay api1 attempt in
            let '(r, api', clock', tr') :=
              execute_loop env remaining' (S attempt) (Some error_name) api1
                           (backoff_wake env attempt) in
            (r, api', clock', tr1 ++ [ActSleep (delay * 1000)] ++ tr')
          else (Raised error_name, api1, clock1, tr1)
      end
  end.

(** [execute]: what it returns or raises, the controller and the clock
    it leaves, and what it did, in order. *)
Definition execute (env : Environment) (api : ClaudeAPI) (clock : Z)
  : ExecResult * ClaudeAPI * Z * list Action :=
  execute_loop env (S (max_retries (retry (api_config api)))) 0 None api clock.







(* ================================================================== *)
(** * A reference JSON decoder *)
(* ================================================================== *)

(** [JSON.parse] stays a parameter of every theorem below.  The decoder
    here instantiates it in the worked examples: objects, arrays,
    strings with escapes, decimal numbers and the three literals. *)

Definition json_ws (c : char16) : bool :=
  N.eqb c 32 || N.eqb c 9 || N.eqb c 10 || N.eqb c 13.

Fixpoint skip_ws (s : jstr) : jstr :=
  match s with
  | c :: s' => if json_ws c then skip_ws s' else s
  | [] => []
  end.

Definition digit_of (c : char16) : option Z :=
  if N.leb 48 c && N.leb c 57 then Some (Z.of_N c - 48)%Z else None.

Definition hex_of (c : char16) : option N :=
  if N.leb 48 c && N.leb c 57 then Some (c - 48)%N
  else if N.leb 97 c && N.leb c 102 then Some (c - 87)%N
  else if N.leb 65 c && N.leb c 70 then Some (c - 55)%N
  else None.

(** Digits at the head of [s]: their value after [acc], how many there
    are, and the rest. *)
Fixpoint decode_digits (s : jstr) (acc : Z) (n : nat) : Z * nat * jstr :=
  match s with
  | c :: s' =>
      match digit_of c with
      | Some d => decode_digits s' (acc * 10 + d)%Z (S n)
      | None => (acc, n, s)
      end
  | [] => (acc, n, s)
  end.

Definition decode_exponent (s : jstr) : option (Z * jstr) :=
  match s with
  | c :: s' =>
      if N.eqb c 101 || N.eqb c 69 then
        let '(neg, s1) :=
          match s' with
          | d :: s'' => if N.eqb d 45 then (true, s'')
                        else if N.eqb d 43 then (false, s'') else (false, s')
          | [] => (false, s')
          end in
        match decode_digits s1 0 0 with
        | (_, O, _) => None
        | (e, _, rest) => Some (if neg then (- e)%Z else e, rest)
        end
      else Some (0%Z, s)
  | [] => Some (0%Z, s)
  end.

Definition decode_number (s : jstr) : option (json * jstr) :=
  let '(neg, s0) :=
    match s with
    | c :: s' => if N.eqb c 45 then (true, s') else (false, s)
    | [] => (false, s)
    end in
  match decode_digits s0 0 0 with
  | (_, O, _) => None
  | (int, _, s1) =>
      let '(mant, scale, s2) :=
        match s1 with
        | c :: s' =>
            if N.eqb c 46 then
              let '(m, k, rest) := decode_digits s' int 0 in (m, k, rest)
            else (int, O, s1)
        | [] => (int, O, s1)
        end in
      match decode_exponent s2 with
      | Some (e, rest) =>
          let q := inject_Z (if neg then - mant else mant)
                   * Qpower 10 (e - Z.of_nat scale) in
          Some (JNumber (Qred q), rest)
      | None => None
      end
  end.

(** The characters of a string literal after its opening quote. *)
Fixpoint decode_chars (fuel : nat) (s : jstr) : option (jstr * jstr) :=
  match fuel with
  | O => None
  | S fuel' =>
      match s with
      | [] => None
      | c :: s' =>
          if N.eqb c 34 then Some ([], s')
          else if N.eqb c 92 then
            match s' with
            | e :: s'' =>
                let simple (u : char16) :=
                  match decode_chars fuel' s'' with
                  | Some (cs, rest) => Some (u :: cs, rest)
                  | None => None
                  end in
                if N.eqb e 34 then simple 34%N
                else if N.eqb e 92 then simple 92%N
                else if N.eqb e 47 then simple 47%N
                else if N.eqb e 98 then simple 8%N
                else if N.eqb e 102 then simple 12%N
                else if N.eqb e 110 then simple 10%N
                else if N.eqb e 114 then simple 13%N
                else if N.eqb e 116 then simple 9%N
                else if N.eqb e 117 then
                  match s'' with
                  | h1 :: h2 :: h3 :: h4 :: s3 =>
                      match hex_of h1, hex_of h2, hex_of h3, hex_of h4 with
                      | Some a, Some b, Some c', Some d =>
                          match decode_chars fuel' s3 with
                          | Some (cs, rest) =>
                              Some ((((a * 16 + b) * 16 + c') * 16 + d)%N :: cs, rest)
                          | None => None
                          end
                      | _, _, _, _ => None
                      end
                  | _ => None
                  end
                else None
            | [] => None
            end
          else if N.ltb c 32 then None
          else
            match decode_chars fuel' s' with
            | Some (cs, rest) => Some (c :: cs, rest)
            | None => None
            end
      end
  end.

Definition decode_string (s : jstr) : option (jstr * jstr) :=
  decode_chars (S (List.length s)) s.

(** Assigning a property: a key that is already there keeps its place
    and takes the new value. *)
Fixpoint set_prop (props : list (jstr * json)) (k : jstr) (v : json)
  : list (jstr * json) :=
  match props with
  | [] => [(k, v)]
  | (k', v') :: rest =>
      if jstr_eqb k' k then (k', v) :: rest else (k', v') :: set_prop rest k v
  end.

Section Decoder.

Variable value : jstr -> option (json * jstr).

(** The items of an array after its opening bracket or a comma. *)
Fixpoint decode_elements (fuel : nat) (s : jstr) (acc : list json)
  : option (list json * jstr) :=
  match fuel with
  | O => None
  | S fuel' =>
      match value s with
      | Some (v, rest) =>
          match skip_ws rest with
          | c :: r =>
              if N.eqb c 44 then decode_elements fuel' r (acc ++ [v])
              else if N.eqb c 93 then Some (acc ++ [v], r)
              else None
          | [] => None
          end
      | None => None
      end
  end.

(** The members of an object after its opening brace or a comma. *)
Fixpoint decode_members (fuel : nat) (s : jstr) (acc : list (jstr * json))
  : option (list (jstr * json) * jstr) :=
  match fuel with
  | O => None
  | S fuel' =>
      match skip_ws s with
      | q :: s1 =>
          if N.eqb q 34 then
            match decode_string s1 with
            | Some (k, s2) =>
                match skip_ws s2 with
                | colon :: s3 =>
                    if N.eqb colon 58 then
                      match value s3 with
                      | Some (v, rest) =>
                          match skip_ws rest with
                          | c :: r =>
                              if N.eqb c 44 then decode_members fuel' r (set_prop acc k v)
                              else if N.eqb c 125 then Some (set_prop acc k v, r)
                              else None
                          | [] => None
                          end
                      | None => None
                      end
                    else None
                | [] => None
                end
            | None => None
            end
          else None
      | [] => None
      end
  end.

End Decoder.

Fixpoint decode_value (fuel : nat) (s : jstr) : option (json * jstr) :=
  match fuel with
  | O => None
  | S fuel' =>
      match skip_ws s with
      | [] => None
      | c :: rest =>
          if N.eqb c 123 then
            match skip_ws rest with
            | d :: r =>
                if N.eqb d 125 then Some (JObject [], r)
                else match decode_members (decode_value fuel') fuel' rest [] with
                     | Some (props, r') => Some (JObject props, r')
                     | None => None
                     end
            | [] => None
            end
          else if N.eqb c 91 then
            match skip_ws rest with
            | d :: r =>
                if N.eqb d 93 then Some (JArray [], r)
                else match decode_elements (decode_value fuel') fuel' rest [] with
                     | Some (items, r') => Some (JArray items, r')
                     | None => None
                     end
            | [] => None
            end
          else if N.eqb c 34 then
            match decode_string rest with
            | Some (str, r) => Some (JString str, r)
            | None => None
            end
          else if startsWith (c :: rest) (js "true") then Some (JBool true, skipn 3 rest)
          else if startsWith (c :: rest) (js "false") then Some (JBool false, skipn 4 rest)
          else if startsWith (c :: rest) (js "null") then Some (JNull, skipn 3 rest)
          else decode_number (c :: rest)
      end
  end.

Definition json_decode (s : jstr) : option json :=
  match decode_value (S (List.length s)) s with
  | Some (v, rest) =>
      match skip_ws rest with
      | [] => Some v
      | _ :: _ => None
      end
  | None => None
  end.

(** A reference instance of [Number.prototype.toString] for the worked
    examples: plain decimal notation, with at most twenty digits after
    the point. *)
Fixpoint decimal_digits (fuel : nat) (n : Z) (acc : jstr) : jstr :=
  match fuel with
  | O => acc
  | S fuel' =>
      let acc' := Z.to_N (48 + n mod 10) :: acc in
      if (n / 10 =? 0)%Z then acc' else decimal_digits fuel' (n / 10) acc'
  end.

Fixpoint fraction_digits (fuel : nat) (r d : Z) : jstr :=
  match fuel with
  | O => []
  | S fuel' =>
      if (r =? 0)%Z then []
      else Z.to_N (48 + (r * 10) / d) :: fraction_digits fuel' ((r * 10) mod d) d
  end.

Definition number_to_string (q : Q) : jstr :=
  let n := Z.abs (Qnum q) in
  let d := Zpos (Qden q) in
  (if (Qnum q <? 0)%Z then [45%N] else [])
  ++ decimal_digits (S (Z.to_nat (Z.log2 (n / d)))) (n / d) []
  ++ (if (n mod d =? 0)%Z then [] else 46%N :: fraction_digits 20 (n mod d) d).

(** ** Tool-result flattening, as the specification words it *)




(** A typed block: not [null]; when it is an object of type [text], its
    [text], if it has one, is a string. *)
Definition typed_block (b : json) : bool :=
  match b with
  | JNull => false
  | JObject props =>
      if is_string (lookup props (js "type")) (js "text") then
        match lookup props (js "text") with
        | Some (JString _) | None => true
        | Some _ => false
        end
      else true
  | _ => true
  end.




Definition non_null (v : json) : bool :=
  match v with JNull => false | _ => true end.




(** ** The success predicate, as the specification words it *)

(** A result summary is present, its [is_error] field is [false], and
    its subtype equals [success]. *)
Definition success_spec (p : ClaudeResponseParser) : Prop :=
  exists props,
    result_summary p = Some (JObject props)
    /\ lookup props (js "is_error") = Some (JBool false)
    /\ lookup props (js "subtype") = Some (JString (js "success")).

(** The summary, when there is one, is an object whose [is_error] is a
    boolean, as the [ResultSummary] interface declares. *)
Definition summary_typed (p : ClaudeResponseParser) : Prop :=
  match result_summary p with
  | None => True
  | Some (JObject props) => exists b, lookup props (js "is_error") = Some (JBool b)
  | Some _ => False
  end.

(** The line decodes to an object of type [result]. *)
Definition result_line (line : jstr) (props : list (jstr * json)) : Prop :=
  startsWith (trim line) [LBRACE] = true
  /\ endsWith (trim line) [RBRACE] = true
  /\ JSON_parse (trim line) = Some (JObject props)
  /\ is_string (lookup props (js "type")) (js "result") = true.

(** ** Retry backoff, as the specification words it *)

(** [base ^ n] by repeated multiplication. *)
Fixpoint power (base : Q) (n : nat) : Q :=
  match n with
  | O => 1
  | S n' => base * power base n'
  end.

(** [min(initial_delay * exponential_base^attempt, max_delay)]. *)
Definition backoff_spec (r : RetryConfig) (attempt : nat) : Q :=
  if Qle_bool (initial_delay r * power (exponential_base r) attempt) (max_delay r)
  then initial_delay r * power (exponential_base r) attempt
  else max_delay r.

Definition api_with_retry (r : RetryConfig) : ClaudeAPI :=
  {| api_config := {| retry := r; rate_limit := DEFAULT_RATE_LIMIT_CONFIG;
                      streaming := DEFAULT_STREAM_CONFIG;
                      session_config := DEFAULT_SESSION_CONFIG |};
     session := None; rate_limiter := None |}.

(** ** Rate limiting *)

Definition with_minute_ceiling (n : Z) : RateLimitConfig :=
  {| requests_per_minute := n; requests_per_hour := 1000; burst_size := 10;
     enabled := true |}.

(** ** Counting what the controller did *)

Definition is_record (a : Action) : bool :=
  match a with ActRecordRequest _ => true | _ => false end.

Definition is_run (a : Action) : bool :=
  match a with ActRunCommand _ _ => true | _ => false end.

Definition count_records (tr : list Action) : nat := List.length (filter is_record tr).

Definition count_runs (tr : list Action) : nat := List.length (filter is_run tr).

(** The limiter that the checks and the recordings of a trace leave,
    in the order they were made. *)
Fixpoint replay_limiter (cfg : RateLimitConfig) (rl : RateLimitState) (tr : list Action)
  : RateLimitState :=
  match tr with
  | [] => rl
  | ActCheckLimit now :: rest => replay_limiter cfg (fst (should_delay rl cfg now)) rest
  | ActRecordRequest now :: rest => replay_limiter cfg (record_request rl now) rest
  | _ :: rest => replay_limiter cfg rl rest
  end.

(** Every command that resolved is followed at once by a recording,
    and there is no other recording. *)
Fixpoint records_follow_runs (tr : list Action) : bool :=
  match tr with
  | [] => true
  | ActRunCommand _ (Resolved _) :: ActRecordRequest _ :: rest => records_follow_runs rest
  | ActRunCommand _ (Resolved _) :: _ => false
  | ActRecordRequest _ :: _ => false
  | _ :: rest => records_follow_runs rest
  end.

(** The outputs of the commands that resolved, in order, and the
    responses parsed from them. *)
Definition outputs_of (tr : list Action) : list jstr :=
  flat_map (fun a => match a with
                     | ActRunCommand _ (Resolved stdout) => [stdout]
                     | _ => []
                     end) tr.

Definition responses_of (tr : list Action) : list ClaudeResponse :=
  List.map parse_claude_stream (outputs_of tr).






(* ================================================================== *)
(** * Inputs of the worked examples *)
(* ================================================================== *)

Definition init_line : jstr :=
  js "{'type':'system','subtype':'init','session_id':'s1'}".

Definition result_line_ok : jstr :=
  js "{'type':'result','subtype':'success','is_error':false,'total_cost_usd':0.01,'duration_ms':100,'duration_api_ms':90,'num_turns':1,'result':'ok','session_id':'s1'}".

(** A successful result that cost nothing. *)
Definition result_line_free : jstr :=
  js "{'type':'result','subtype':'success','is_error':false,'total_cost_usd':0}".

(** A result line that says [success] and carries no other field. *)
Definition result_line_bare : jstr := js "{'type':'result','subtype':'success'}".

Definition user_line_example : jstr :=
  js "{'type':'user','message':{'content':[{'type':'tool_result','tool_use_id':'t1','content':[{'type':'text','text':'a'},{'type':'text','text':'b'},{'type':'other'}]},{'type':'tool_result','tool_use_id':'t2','content':'plain'}]}}".


(** The two-line stream of the end-to-end scenario, and one way to cut
    it in the middle of both lines. *)
Definition two_line_stream : jstr := init_line ++ [NL] ++ result_line_ok.

Definition two_line_chunks : list jstr :=
  [firstn 7 init_line;
   skipn 7 init_line ++ [NL] ++ firstn 30 result_line_ok;
   skipn 30 result_line_ok].

(** The command fails, with a plain [Error]. *)
Definition env_failure : Environment :=
  {| command := fun _ => (Rejected (js "Error"), 1000%Z);
     write_error := fun _ => None;
     limit_wake := fun _ => 0%Z; backoff_wake := fun _ => 0%Z |}.

(** Every attempt ends in an error named [TimeoutError]. *)
Definition env_timeouts : Environment :=
  {| command := fun _ => (Rejected (js "TimeoutError"), 1000%Z);
     write_error := fun _ => None;
     limit_wake := fun _ => 0%Z;
     backoff_wake := fun k => (Z.of_nat (S k) * 10000)%Z |}.




(** Nineteen minutes into the hour: 1000 requests so far, 50 of them in
    the current minute window. *)
Definition hour_saturated : RateLimitState :=
  {| requests_this_minute := 50; requests_this_hour := 1000;
     minute_reset_time := 1140000; hour_reset_time := 0;
     last_request_time := Some 1199000%Z |}.

(* ================================================================== *)
(** * Auxiliary notions for the statements and proofs *)
(* ================================================================== *)

(** A string made of white space only. *)
Definition all_space (s : jstr) : Prop := Forall (fun c => is_white_space c = true) s.

(** A string that does not begin with white space. *)
Definition no_leading_space (s : jstr) : Prop :=
  match s with
  | [] => True
  | c :: _ => is_white_space c = false
  end.

(** The lines that survive the blank-line filter, trimmed. *)
Definition significant (lines : list jstr) : list jstr :=
  filter nonempty (List.map trim lines).

(** [dispatch] on a list of lines, in order. *)
Fixpoint dispatch_all (cfg : StreamConfig) (p : ClaudeResponseParser) (lines : list jstr)
  : ClaudeResponseParser * list Yielded :=
  match lines with
  | [] => (p, [])
  | line :: rest =>
      let (p1, out) := dispatch cfg p line in
      let (p2, outs) := dispatch_all cfg p1 rest in
      (p2, out ++ outs)
  end.

Definition yield_event (ev : option Event) : list Yielded :=
  match ev with
  | Some e => [YEvent e]
  | None => []
  end.

(* ================================================================== *)
(** * The queries of parser.ts and models.ts *)
(* ================================================================== *)







(** [ClaudeResponseImpl.assistant_response]: the first assistant turn. *)
Definition assistant_response (r : ClaudeResponse) : option AssistantResponse :=
  match cr_assistant_responses r with
  | first :: _ => Some first
  | [] => None
  end.

(** [ClaudeResponseImpl.get_all_events]. *)
Definition get_all_events (r : ClaudeResponse) : list Event :=
  (match cr_system_init r with
   | Some init => if truthy (cr_system_init r) then [EvSystemInit init] else []
   | None => []
   end)
  ++ List.map EvAssistant (cr_assistant_responses r)
  ++ List.map EvUser (cr_user_responses r)
  ++ (match cr_result_summary r with
      | Some res => if truthy (cr_result_summary r) then [EvResult res] else []
      | None => []
      end).

(** ** What a sequence of events says about the accumulators *)

Definition assistants_of (evs : list Event) : list AssistantResponse :=
  flat_map (fun e => match e with EvAssistant r => [r] | _ => [] end) evs.

Definition users_of (evs : list Event) : list UserResponse :=
  flat_map (fun e => match e with EvUser r => [r] | _ => [] end) evs.

(** The last [SessionInit] of the sequence, if any; else what was there. *)
Definition last_init (before : jsval) (evs : list Event) : jsval :=
  fold_left (fun acc e => match e with EvSystemInit d => Some d | _ => acc end) evs before.

Definition last_result (before : jsval) (evs : list Event) : jsval :=
  fold_left (fun acc e => match e with EvResult d => Some d | _ => acc end) evs before.

(** One entry of the two logs: the accepted line is trimmed, is framed
    by braces, and decodes to the logged object. *)
Definition log_entry_ok (line : jstr) (data : json) : Prop :=
  trim line = line
  /\ startsWith line [LBRACE] = true
  /\ endsWith line [RBRACE] = true
  /\ JSON_parse line = Some data.

(** The content kinds the assistant branch keeps. *)
Definition known_content (item : json) : bool :=
  match item with
  | JObject props =>
      is_string (lookup props (js "type")) (js "text")
      || is_string (lookup props (js "type")) (js "thinking")
      || is_string (lookup props (js "type")) (js "tool_use")
  | _ => false
  end.


(** What the branch that produced [ev] did to the accumulators. *)
Definition apply_event (p : ClaudeResponseParser) (ev : option Event) : ClaudeResponseParser :=
  match ev with
  | None => p
  | Some (EvSystemInit d) => set_system_init p d
  | Some (EvAssistant a) => push_assistant p a
  | Some (EvUser u) => push_user p u
  | Some (EvResult d) => set_result_summary p d
  end.

(** Every logged line decodes to the object logged beside it. *)
Definition logs_ok (p : ClaudeResponseParser) : Prop :=
  Forall2 log_entry_ok (raw_lines p) (events p).


(** An object block whose [type] is [t]. *)
Definition has_type (t : jstr) (c : json) : bool :=
  match c with
  | JObject props => is_string (lookup props (js "type")) t
  | _ => false
  end.


Definition event_of_option (ev : option Event) : list Event :=
  match ev with Some e => [e] | None => [] end.

(* ================================================================== *)
(** * More of models.ts and api.ts *)
(* ================================================================== *)

(** [list.slice(start)] for an integer [start]: a negative one counts
    from the end. *)
Definition slice_from (A : Type) (l : list A) (start : Z) : list A :=
  let len := Z.of_nat (List.length l) in
  let k := if (start <? 0)%Z then Z.max (len + start) 0 else Z.min start len in
  skipn (Z.to_nat k) l.

(** [SessionImpl.get_context(max_messages?)]; [None] is a call without
    the argument. *)
Definition get_context (s : Session) (max_messages : option Z) : list Turn :=
  match max_messages with
  | Some n =>
      if (n =? 0)%Z then message_history s
      else slice_from (message_history s) (- n)
  | None => message_history s
  end.

(** The attempts and the sleeps of a trace, in order. *)
Definition runs_of (tr : list Action) : list (nat * CommandResult) :=
  flat_map (fun a => match a with ActRunCommand k r => [(k, r)] | _ => [] end) tr.

Definition sleeps_of (tr : list Action) : list Q :=
  flat_map (fun a => match a with ActSleep ms => [ms] | _ => [] end) tr.

(** The trace of [n] failed attempts from attempt number [k] on, each
    but the last followed by its backoff sleep. *)
Fixpoint failed_attempts (env : Environment) (api : ClaudeAPI) (k n : nat) : list Action :=
  match n with
  | O => []
  | 1%nat => [ActRunCommand k (fst (env k))]
  | S n' =>
      ActRunCommand k (fst (env k))
      :: ActSleep (_calculate_retry_delay api k * 1000)
      :: failed_attempts env api (S k) n'
  end.


Definition inits_of (evs : list Event) : list json :=
  flat_map (fun e => match e with EvSystemInit d => [d] | _ => [] end) evs.

Definition results_of (evs : list Event) : list json :=
  flat_map (fun e => match e with EvResult d => [d] | _ => [] end) evs.

(** A [SessionInit] or [ResultSummary] event carries an object. *)
Definition event_is_object (e : Event) : Prop :=
  match e with
  | EvSystemInit d | EvResult d => exists props, d = JObject props
  | _ => True
  end.

(** The categorical listing of a sequence of events: the last
    [SessionInit], every assistant turn, every user turn, the last
    [ResultSummary]. *)
Definition categorical (evs : list Event) : list Event :=
  event_of_option (option_map EvSystemInit (last_init None evs))
  ++ List.map EvAssistant (assistants_of evs)
  ++ List.map EvUser (users_of evs)
  ++ event_of_option (option_map EvResult (last_result None evs)).

(** ** [_build_command] *)

(** The fields of the configuration that [_build_command] reads.  An
    optional field that is [undefined] is [None]; [custom_flags] is the
    list of its entries in the order [Object.entries] gives them. *)
Record CommandConfig := {
  debug_enabled : bool;
  input_format : jstr;
  model : option jstr;
  fallback_model : option jstr;
  allowed_tools : option (list jstr);
  disallowed_tools : option (list jstr);
  continue_last : bool;
  resume_session_id : option jstr;
  system_prompt : option jstr;
  additional_dirs : list jstr;
  allowed_flags : list jstr;
  custom_flags : option (list (jstr * jstr))
}.

Definition base_command : list jstr :=
  [js "claude"; js "-p"; js "--dangerously-skip-permissions"; js "--output-format";
   js "stream-json"; js "--verbose"].

Definition handled_flags : list jstr :=
  [js "-d"; js "--debug"; js "--input-format"; js "--model"; js "--fallback-model";
   js "--allowedTools"; js "--disallowedTools"; js "-c"; js "--continue"; js "-r";
   js "--resume"; js "--add-dir"; js "--append-system-prompt"].

(** [DEFAULT_COMMAND_FLAGS.allowed_flags]. *)
Definition DEFAULT_ALLOWED_FLAGS : list jstr :=
  [js "--temperature"; js "--max-tokens"; js "--stop-sequence"; js "-d"; js "--debug";
   js "--input-format"; js "--allowedTools"; js "--disallowedTools"; js "-c";
   js "--continue"; js "-r"; js "--resume"; js "--model"; js "--fallback-model";
   js "--add-dir"; js "--append-system-prompt"].

(** [list.includes(s)] on strings. *)
Definition includes_str (l : list jstr) (s : jstr) : bool := existsb (jstr_eqb s) l.

(** [if (s) command.push(flag, s)] for an optional string: an absent or
    empty one pushes nothing. *)
Definition flag_with (flag : jstr) (value : option jstr) : list jstr :=
  match value with
  | Some v => if nonempty v then [flag; v] else []
  | None => []
  end.

(** [if (tools) command.push(flag, tools.join(' '))]: an array is truthy
    even when empty. *)
Definition flag_with_list (flag : jstr) (tools : option (list jstr)) : list jstr :=
  match tools with
  | Some ts => [flag; join ts (js " ")]
  | None => []
  end.

(** The loop over [Object.entries(custom_flags)]. *)
Definition custom_flag_args (allowed : list jstr) (entries : list (jstr * jstr))
  : list jstr :=
  flat_map (fun '(flag, value) =>
              if includes_str allowed flag then
                if negb (includes_str handled_flags flag) then
                  if nonempty value then [flag; value] else [flag]
                else []
              else []) entries.

Definition _build_command (cfg : CommandConfig) (prompt : jstr) : list jstr :=
  base_command
  ++ (if debug_enabled cfg then [js "--debug"] else [])
  ++ (if negb (jstr_eqb (input_format cfg) (js "text"))
      then [js "--input-format"; input_format cfg] else [])
  ++ flag_with (js "--model") (model cfg)
  ++ flag_with (js "--fallback-model") (fallback_model cfg)
  ++ flag_with_list (js "--allowedTools") (allowed_tools cfg)
  ++ flag_with_list (js "--disallowedTools") (disallowed_tools cfg)
  ++ (if continue_last cfg then [js "--continue"]
      else flag_with (js "--resume") (resume_session_id cfg))
  ++ flag_with (js "--append-system-prompt") (system_prompt cfg)
  ++ (match additional_dirs cfg with
      | [] => []
      | dirs => js "--add-dir" :: dirs
      end)
  ++ (match custom_flags cfg with
      | Some entries => custom_flag_args (allowed_flags cfg) entries
      | None => []
      end)
  ++ [prompt].

(** [set_custom_flags(flags)]. *)
Definition set_custom_flags (cfg : CommandConfig) (flags : list (jstr * jstr))
  : CommandConfig :=
  {| debug_enabled := debug_enabled cfg; input_format := input_format cfg;
     model := model cfg; fallback_model := fallback_model cfg;
     allowed_tools := allowed_tools cfg; disallowed_tools := disallowed_tools cfg;
     continue_last := continue_last cfg; resume_session_id := resume_session_id cfg;
     system_prompt := system_prompt cfg; additional_dirs := additional_dirs cfg;
     allowed_flags := allowed_flags cfg; custom_flags := Some flags |}.

(** The three flags of the default allow-list that no named option
    covers. *)
Definition free_flags : list jstr :=
  [js "--temperature"; js "--max-tokens"; js "--stop-sequence"].

(** An object that no branch of [parse_line] classifies: its [type] is
    not [assistant], [user] or [result], and it is not a [system]
    object of subtype [init]. *)
Definition unclassified (props : list (jstr * json)) : bool :=
  negb (is_string (lookup props (js "type")) (js "system")
        && is_string (lookup props (js "subtype")) (js "init"))
  && negb (is_string (lookup props (js "type")) (js "assistant"))
  && negb (is_string (lookup props (js "type")) (js "user"))
  && negb (is_string (lookup props (js "type")) (js "result")).

(** An assistant or user turn whose content array holds a [null]: the
    loop over the content reads [.type] of it and raises. *)
Definition raising_turn (props : list (jstr * json)) : Prop :=
  is_string (lookup props (js "type")) (js "assistant")
  || is_string (lookup props (js "type")) (js "user") = true
  /\ exists mprops items,
       lookup props (js "message") = Some (JObject mprops)
       /\ lookup mprops (js "content") = Some (JArray items)
       /\ In JNull items.

(** The line passes the pre-filter and decodes to [data]. *)
Definition decodes_to (line : jstr) (data : json) : Prop :=
  startsWith (trim line) [LBRACE] = true
  /\ endsWith (trim line) [RBRACE] = true
  /\ JSON_parse (trim line) = Some data.

Definition CR : char16 := 13%N.

(** ** Further inputs of the worked examples *)

(** An assistant line with a text block, a block of an unknown kind and
    a tool use. *)
Definition assistant_line_example : jstr :=
  js "{'type':'assistant','message':{'model':'m','content':[{'type':'text','text':'hi'},{'type':'image'},{'type':'tool_use','id':'t1','name':'Bash'}],'usage':{'input_tokens':3,'output_tokens':4}},'session_id':'s1'}".


(** A conversation in which a user turn arrives between two assistant
    turns. *)
Definition conversation_stream : jstr :=
  join [init_line; assistant_line_example; user_line_example; assistant_line_example;
        result_line_ok] [NL].



Definition raw_stream_config : StreamConfig :=
  {| buffer_size := 65536; timeout_between_chunks := 30; yield_raw := true |}.

Definition turn_example (id : string) : Turn :=
  TUser {| ur_message := {| um_message_data := JObject []; um_content := [] |};
           ur_parent_tool_use_id := None;
           ur_session_id := Some (JString (js id)) |}.

Definition session_example : Session :=
  {| session_id := None; created_at := 0; last_activity := 0;
     message_history := [turn_example "a"; turn_example "b"; turn_example "c"];
     total_tokens := Num 0; total_cost := Num 0 |}.



(** A controller that saves its session to a file and retries on
    plain errors. *)
Definition saving_config : APIConfig :=
  {| retry := {| max_retries := 3; initial_delay := 1; max_delay := 60;
                 exponential_base := 2; retry_on := [js "Error"] |};
     rate_limit := DEFAULT_RATE_LIMIT_CONFIG;
     streaming := DEFAULT_STREAM_CONFIG;
     session_config := {| maintain_context := true; max_history_size := 100;
                          persist_to_file := Some (js "session.json");
                          auto_save := true |} |}.

(** Every command prints the two-line stream; the first write of the
    session file fails, the following ones succeed. *)
Definition env_first_write_fails : Environment :=
  {| command := fun _ => (Resolved two_line_stream, 1000%Z);
     write_error := fun k => match k with O => Some (js "Error") | _ => None end;
     limit_wake := fun _ => 0%Z;
     backoff_wake := fun k => (Z.of_nat (S k) * 10000)%Z |}.

(** Every command prints the two-line stream and no write succeeds. *)
Definition env_unwritable : Environment :=
  {| command := fun _ => (Resolved two_line_stream, 1000%Z);
     write_error := fun _ => Some (js "Error");
     limit_wake := fun _ => 0%Z;
     backoff_wake := fun k => (Z.of_nat (S k) * 10000)%Z |}.



(** The default command configuration with three custom flags. *)
Definition command_config_example : CommandConfig :=
  {| debug_enabled := false; input_format := js "text"; model := Some (js "sonnet");
     fallback_model := None; allowed_tools := None; disallowed_tools := None;
     continue_last := false; resume_session_id := None; system_prompt := None;
     additional_dirs := []; allowed_flags := DEFAULT_ALLOWED_FLAGS;
     custom_flags := Some [(js "--temperature", js "0.5"); (js "--model", js "opus");
                           (js "--top-p", js "1"); (js "--max-tokens", [])] |}.

(* ================================================================== *)
(** * Strings: trimming and splitting *)
(* ================================================================== *)

Lemma NL_is_white_space : is_white_space NL = true.
Proof. reflexivity. Qed.

Lemma jstr_eqb_eq (a b : jstr) : jstr_eqb a b = true <-> a = b.
Proof.
  revert b; induction a as [|x a IH]; intros [|y b]; simpl; split; intros H;
    try reflexivity; try discriminate.
  - apply andb_true_iff in H as [Hx Hab]. apply N.eqb_eq in Hx.
    apply IH in Hab. now subst.
  - injection H as -> ->. rewrite N.eqb_refl. simpl. now apply IH.
Qed.

Lemma jstr_eqb_refl (a : jstr) : jstr_eqb a a = true.
Proof. now apply jstr_eqb_eq. Qed.

Lemma trimStart_all_space (w s : jstr) :
  all_space w -> trimStart (w ++ s) = trimStart s.
Proof.
  induction 1 as [|c w Hc _ IH]; simpl; [reflexivity|]. now rewrite Hc.
Qed.

Lemma trimStart_nil_iff (s : jstr) : trimStart s = [] <-> all_space s.
Proof.
  induction s as [|c s IH]; simpl.
  - split; [constructor | reflexivity].
  - destruct (is_white_space c) eqn:Hc.
    + rewrite IH. split; intros H; [now constructor | now inversion H].
    + split; [discriminate | intros H; inversion H; congruence].
Qed.

Lemma trimStart_decomp (s : jstr) :
  exists w, all_space w /\ s = w ++ trimStart s.
Proof.
  induction s as [|c s [w [Hw Hs]]]; simpl.
  - exists []. split; [constructor | reflexivity].
  - destruct (is_white_space c) eqn:Hc.
    + exists (c :: w). split; [now constructor | simpl; now f_equal].
    + exists []. split; [constructor | reflexivity].
Qed.

Lemma trimStart_idem (s : jstr) : trimStart (trimStart s) = trimStart s.
Proof.
  induction s as [|c s IH]; simpl; [reflexivity|].
  destruct (is_white_space c) eqn:Hc; [exact IH | simpl; now rewrite Hc].
Qed.

Lemma trimStart_app_keep (s y : jstr) :
  trimStart s <> [] -> trimStart (s ++ y) = trimStart s ++ y.
Proof.
  induction s as [|c s IH]; simpl; [congruence|].
  destruct (is_white_space c); [exact IH | reflexivity].
Qed.

Lemma all_space_rev (w : jstr) : all_space w -> all_space (rev w).
Proof. apply Forall_rev. Qed.

Lemma all_space_app (a b : jstr) : all_space a -> all_space b -> all_space (a ++ b).
Proof. intros Ha Hb. apply Forall_app. now split. Qed.

Lemma trimEnd_all_space (s w : jstr) :
  all_space w -> trimEnd (s ++ w) = trimEnd s.
Proof.
  intros Hw. unfold trimEnd. rewrite rev_app_distr.
  now rewrite trimStart_all_space by now apply all_space_rev.
Qed.

Lemma trimEnd_decomp (s : jstr) :
  exists w, all_space w /\ s = trimEnd s ++ w.
Proof.
  destruct (trimStart_decomp (rev s)) as [w [Hw Hs]].
  exists (rev w). split; [now apply all_space_rev|].
  unfold trimEnd. rewrite <- rev_app_distr, <- Hs. now rewrite rev_involutive.
Qed.

Lemma trimEnd_idem (s : jstr) : trimEnd (trimEnd s) = trimEnd s.
Proof. unfold trimEnd. now rewrite rev_involutive, trimStart_idem. Qed.

Lemma trimStart_no_leading_space (s : jstr) : no_leading_space (trimStart s).
Proof.
  induction s as [|c s IH]; simpl; [exact I|].
  destruct (is_white_space c) eqn:Hc; [exact IH | exact Hc].
Qed.

Lemma trimStart_fixed (s : jstr) : no_leading_space s -> trimStart s = s.
Proof. destruct s as [|c s]; simpl; [reflexivity | now intros ->]. Qed.

Lemma trimEnd_no_leading_space (s : jstr) :
  no_leading_space s -> no_leading_space (trimEnd s).
Proof.
  intros Hs. destruct (trimEnd_decomp s) as [w [_ Heq]].
  destruct (trimEnd s) as [|c t]; [exact I|].
  rewrite Heq in Hs. exact Hs.
Qed.

Lemma trim_idem (s : jstr) : trim (trim s) = trim s.
Proof.
  unfold trim.
  rewrite (trimStart_fixed (trimEnd (trimStart s))).
  - apply trimEnd_idem.
  - apply trimEnd_no_leading_space, trimStart_no_leading_space.
Qed.

Lemma trim_all_space (w : jstr) : all_space w -> trim w = [].
Proof.
  intros Hw. unfold trim. apply trimStart_nil_iff in Hw. now rewrite Hw.
Qed.

Lemma trim_space_left (w s : jstr) : all_space w -> trim (w ++ s) = trim s.
Proof. intros Hw. unfold trim. now rewrite trimStart_all_space. Qed.

Lemma trim_space_right (s w : jstr) : all_space w -> trim (s ++ w) = trim s.
Proof.
  intros Hw. unfold trim.
  destruct (trimStart s) as [|c t] eqn:Hs.
  - apply trimStart_nil_iff in Hs.
    assert (H : trimStart (s ++ w) = []) by now apply trimStart_nil_iff, all_space_app.
    now rewrite H.
  - rewrite trimStart_app_keep by congruence. rewrite Hs.
    now apply trimEnd_all_space.
Qed.

Lemma trim_decomp (s : jstr) :
  exists w1 w2, all_space w1 /\ all_space w2 /\ s = w1 ++ trim s ++ w2.
Proof.
  destruct (trimStart_decomp s) as [w1 [H1 Hs]].
  destruct (trimEnd_decomp (trimStart s)) as [w2 [H2 Hu]].
  exists w1, w2. repeat split; try assumption.
  unfold trim. now rewrite <- Hu.
Qed.

Lemma split_not_nil (s : jstr) (sep : char16) : split s sep <> [].
Proof.
  destruct s as [|c s]; simpl; [discriminate|].
  destruct (N.eqb c sep); [discriminate|].
  destruct (split s sep); discriminate.
Qed.

Lemma split_cons_other (c : char16) (s : jstr) (sep : char16) :
  N.eqb c sep = false ->
  split (c :: s) sep = (c :: hd [] (split s sep)) :: tl (split s sep).
Proof.
  intros Hc. simpl. rewrite Hc.
  destruct (split s sep) eqn:E; [now apply split_not_nil in E | reflexivity].
Qed.

(** Splitting a concatenation: the last piece of the left part is
    continued by the right part. *)
Lemma split_app (x y : jstr) (sep : char16) :
  split (x ++ y) sep
  = removelast (split x sep) ++ split (last (split x sep) [] ++ y) sep.
Proof.
  induction x as [|c x IH]; [reflexivity|].
  pose proof (split_not_nil x sep) as Hne.
  change ((c :: x) ++ y) with (c :: (x ++ y)).
  destruct (N.eqb c sep) eqn:Hc.
  - simpl. rewrite Hc. rewrite IH.
    destruct (split x sep) as [|l ls]; [congruence | reflexivity].
  - rewrite !split_cons_other by assumption. rewrite IH.
    destruct (split x sep) as [|l ls]; [congruence|]. clear Hne.
    destruct ls as [|l2 ls].
    + simpl. rewrite Hc.
      destruct (split (l ++ y) sep) eqn:E; [now apply split_not_nil in E | reflexivity].
    + reflexivity.
Qed.

Lemma split_no_sep (s : jstr) (sep : char16) :
  includes s sep = false -> split s sep = [s].
Proof.
  unfold includes. induction s as [|c s IH]; simpl; [reflexivity|].
  intros H. apply orb_false_iff in H as [Hc Hs].
  rewrite N.eqb_sym in Hc. rewrite Hc, (IH Hs). reflexivity.
Qed.

Lemma split_at_first (a b : jstr) (sep : char16) :
  includes a sep = false -> split (a ++ sep :: b) sep = a :: split b sep.
Proof.
  unfold includes. induction a as [|c a IH]; simpl.
  - now rewrite N.eqb_refl.
  - intros H. apply orb_false_iff in H as [Hc Ha].
    rewrite N.eqb_sym in Hc. rewrite Hc, (IH Ha). reflexivity.
Qed.

(** The text before the first separator and the text after it. *)
Lemma includes_decomp (s : jstr) (c : char16) :
  includes s c = true ->
  exists a b, s = a ++ c :: b /\ includes a c = false
              /\ indexOf s c = Z.of_nat (List.length a).
Proof.
  unfold includes. induction s as [|x s IH]; simpl; [discriminate|].
  intros H. destruct (N.eqb x c) eqn:Hx.
  - apply N.eqb_eq in Hx. subst x. exists [], s. now repeat split.
  - rewrite N.eqb_sym, Hx in H. simpl in H.
    destruct (IH H) as [a [b [Hs [Ha Hi]]]].
    exists (x :: a), b. repeat split.
    + simpl. now f_equal.
    + simpl. now rewrite N.eqb_sym, Hx.
    + rewrite Hi. simpl List.length.
      destruct (Z.of_nat (List.length a) <? 0)%Z eqn:E; lia.
Qed.

Lemma substring_prefix (a b : jstr) :
  substring (a ++ b) 0 (Z.of_nat (List.length a)) = a.
Proof.
  unfold substring, clamp_index. rewrite Nat2Z.id. simpl Z.to_nat.
  rewrite length_app.
  replace (Nat.min 0 _) with 0%nat by lia.
  replace (Nat.min (List.length a) _) with (List.length a) by lia.
  simpl. rewrite Nat.sub_0_r.
  now rewrite firstn_app, Nat.sub_diag, firstn_all, app_nil_r.
Qed.

Lemma substring_from_suffix (a b : jstr) (c : char16) :
  substring_from (a ++ c :: b) (Z.of_nat (List.length a) + 1) = b.
Proof.
  unfold substring_from, clamp_index.
  replace (Z.to_nat (Z.of_nat (List.length a) + 1)) with (S (List.length a)) by lia.
  rewrite length_app. simpl List.length.
  replace (Nat.min _ _) with (List.length a + 1)%nat by lia.
  rewrite skipn_app.
  rewrite skipn_all2 by lia.
  replace (List.length a + 1 - List.length a)%nat with 1%nat by lia.
  reflexivity.
Qed.

Lemma split_pieces_all_space (w : jstr) :
  all_space w -> Forall all_space (split w NL).
Proof.
  induction 1 as [|c w Hc Hw IH]; simpl.
  - repeat constructor.
  - destruct (N.eqb c NL).
    + constructor; [constructor | exact IH].
    + destruct (split w NL) as [|l ls]; [repeat constructor; assumption|].
      inversion IH; subst. constructor; [now constructor | assumption].
Qed.

Lemma split_pieces_no_sep (s : jstr) (sep : char16) :
  Forall (fun l => includes l sep = false) (split s sep).
Proof.
  induction s as [|c s IH]; simpl; [repeat constructor|].
  destruct (N.eqb c sep) eqn:Hc.
  - constructor; [reflexivity | exact IH].
  - destruct (split s sep) as [|l ls]; [repeat constructor|].
    + unfold includes. simpl. now rewrite N.eqb_sym, Hc.
    + inversion IH; subst. constructor; [|assumption].
      unfold includes in *. simpl. now rewrite N.eqb_sym, Hc.
Qed.

Lemma significant_app (a b : list jstr) :
  significant (a ++ b) = significant a ++ significant b.
Proof. unfold significant. now rewrite map_app, filter_app. Qed.

Lemma significant_all_space (lines : list jstr) :
  Forall all_space lines -> significant lines = [].
Proof.
  induction 1 as [|l ls Hl _ IH]; [reflexivity|].
  unfold significant in *. simpl. now rewrite (trim_all_space Hl).
Qed.

Lemma significant_cons_trim (l l' : jstr) (ls : list jstr) :
  trim l = trim l' -> significant (l :: ls) = significant (l' :: ls).
Proof. intros H. unfold significant. simpl. now rewrite H. Qed.

Lemma hd_tl_split (s : jstr) (sep : char16) :
  split s sep = hd [] (split s sep) :: tl (split s sep).
Proof.
  destruct (split s sep) eqn:E; [now apply split_not_nil in E | reflexivity].
Qed.

Lemma significant_split_space_left (w y : jstr) :
  all_space w -> significant (split (w ++ y) NL) = significant (split y NL).
Proof.
  induction 1 as [|c w Hc Hw IH]; [reflexivity|].
  change ((c :: w) ++ y) with (c :: (w ++ y)).
  destruct (N.eqb c NL) eqn:E.
  - simpl. rewrite E. exact IH.
  - rewrite split_cons_other by assumption.
    rewrite <- IH.
    transitivity (significant (hd [] (split (w ++ y) NL) :: tl (split (w ++ y) NL)));
      [|now rewrite <- hd_tl_split].
    apply significant_cons_trim.
    apply (trim_space_left (w := [c])). now constructor.
Qed.

Lemma split_app_no_sep (l w : jstr) (sep : char16) :
  includes l sep = false ->
  split (l ++ w) sep = (l ++ hd [] (split w sep)) :: tl (split w sep).
Proof.
  unfold includes. induction l as [|c l IH]; simpl.
  - intros _. apply hd_tl_split.
  - intros H. apply orb_false_iff in H as [Hc Hl].
    rewrite N.eqb_sym in Hc. rewrite Hc, (IH Hl). reflexivity.
Qed.

Lemma last_split_no_sep (s : jstr) (sep : char16) :
  includes (last (split s sep) []) sep = false.
Proof.
  pose proof (split_pieces_no_sep s sep) as H.
  pose proof (split_not_nil s sep) as Hne.
  induction H as [|l ls Hl Hls IH]; [congruence|].
  destruct ls as [|l2 ls]; [exact Hl|].
  apply IH. discriminate.
Qed.

Lemma significant_split_space_right (x w : jstr) :
  all_space w -> significant (split (x ++ w) NL) = significant (split x NL).
Proof.
  intros Hw. rewrite split_app.
  rewrite (app_removelast_last (l := split x NL) [] (split_not_nil x NL)) at 3.
  rewrite !significant_app. f_equal.
  rewrite split_app_no_sep by apply last_split_no_sep.
  pose proof (split_pieces_all_space Hw) as Hp.
  rewrite (hd_tl_split w NL) in Hp. inversion Hp as [|w0 wr H0 Hr]; subst.
  unfold significant at 1. simpl.
  rewrite (trim_space_right _ H0).
  fold (significant (tl (split w NL))). rewrite (significant_all_space Hr).
  reflexivity.
Qed.

(** Trimming the whole stream only removes and shortens blank lines. *)
Lemma significant_split_trim (s : jstr) :
  significant (split (trim s) NL) = significant (split s NL).
Proof.
  destruct (trim_decomp s) as [w1 [w2 [H1 [H2 Hs]]]].
  rewrite Hs at 2.
  rewrite significant_split_space_left by assumption.
  now rewrite significant_split_space_right.
Qed.

(* ================================================================== *)
(** * The line parser: rejection *)
(* ================================================================== *)

Lemma parse_line_trim (p : ClaudeResponseParser) (line : jstr) :
  parse_line p (trim line) = parse_line p line.
Proof. unfold parse_line. now rewrite trim_idem. Qed.

Lemma parse_line_blank (p : ClaudeResponseParser) (line : jstr) :
  trim line = [] -> parse_line p line = (p, None).
Proof. intros H. unfold parse_line. now rewrite H. Qed.

Lemma parse_line_no_brace (p : ClaudeResponseParser) (line : jstr) :
  startsWith (trim line) [LBRACE] = false -> parse_line p line = (p, None).
Proof.
  intros H. unfold parse_line. rewrite H. simpl.
  now destruct (nonempty (trim line)).
Qed.

Lemma parse_line_unclosed (p : ClaudeResponseParser) (line : jstr) :
  endsWith (trim line) [RBRACE] = false -> parse_line p line = (p, None).
Proof.
  intros H. unfold parse_line. rewrite H. simpl.
  destruct (nonempty (trim line)); [|reflexivity].
  now destruct (startsWith (trim line) [LBRACE]).
Qed.

Lemma parse_lines_app (p : ClaudeResponseParser) (a b : list jstr) :
  parse_lines p (a ++ b)
  = let (p1, e1) := parse_lines p a in
    let (p2, e2) := parse_lines p1 b in
    (p2, e1 ++ e2).
Proof.
  revert p; induction a as [|l a IH]; intros p; simpl.
  - now destruct (parse_lines p b).
  - destruct (parse_line p l) as [p1 ev]. rewrite IH.
    destruct (parse_lines p1 a) as [p2 e1].
    destruct (parse_lines p2 b) as [p3 e2].
    now destruct ev.
Qed.

(** Only the significant lines matter to the line-by-line loop. *)
Lemma parse_lines_significant (p : ClaudeResponseParser) (lines : list jstr) :
  parse_lines p lines = parse_lines p (significant lines).
Proof.
  revert p; induction lines as [|l ls IH]; intros p; [reflexivity|].
  unfold significant. simpl.
  destruct (trim l) as [|c t] eqn:Hl.
  - simpl. rewrite (parse_line_blank p _ Hl). rewrite IH.
    unfold significant. now destruct (parse_lines p _).
  - simpl. rewrite <- Hl, parse_line_trim.
    destruct (parse_line p l) as [p1 ev]. rewrite IH. reflexivity.
Qed.

Lemma parse_lines_trim_stream (p : ClaudeResponseParser) (stream : jstr) :
  parse_lines p (split (trim stream) NL) = parse_lines p (split stream NL).
Proof.
  rewrite parse_lines_significant, significant_split_trim.
  symmetry. apply parse_lines_significant.
Qed.

(* ================================================================== *)
(** * The chunk reassembler *)
(* ================================================================== *)

Lemma dispatch_all_app (cfg : StreamConfig) (p : ClaudeResponseParser) (a b : list jstr) :
  dispatch_all cfg p (a ++ b)
  = let (p1, o1) := dispatch_all cfg p a in
    let (p2, o2) := dispatch_all cfg p1 b in
    (p2, o1 ++ o2).
Proof.
  revert p; induction a as [|l a IH]; intros p; simpl.
  - now destruct (dispatch_all cfg p b).
  - destruct (dispatch cfg p l) as [p1 o]. rewrite IH.
    destruct (dispatch_all cfg p1 a) as [p2 o1].
    destruct (dispatch_all cfg p2 b) as [p3 o2].
    now rewrite app_assoc.
Qed.

(** Outside raw mode the pre-filter of [dispatch] only repeats checks
    that [parse_line] makes itself. *)
Lemma dispatch_parse_line (cfg : StreamConfig) (p : ClaudeResponseParser) (text : jstr) :
  yield_raw cfg = false ->
  dispatch cfg p text = (fst (parse_line p text), yield_event (snd (parse_line p text))).
Proof.
  intros Hraw. unfold dispatch. rewrite Hraw.
  destruct (nonempty (trim text)) eqn:Hne; simpl.
  - destruct (startsWith (trim text) [LBRACE]) eqn:Hb.
    + rewrite parse_line_trim. now destruct (parse_line p text) as [p' [e|]].
    + now rewrite (parse_line_no_brace p _ Hb).
  - rewrite parse_line_blank; [reflexivity|].
    now destruct (trim text).
Qed.

Lemma dispatch_all_parse_lines (cfg : StreamConfig) (p : ClaudeResponseParser)
    (lines : list jstr) :
  yield_raw cfg = false ->
  dispatch_all cfg p lines
  = (fst (parse_lines p lines), List.map YEvent (snd (parse_lines p lines))).
Proof.
  intros Hraw. revert p; induction lines as [|l ls IH]; intros p; [reflexivity|].
  simpl. rewrite (dispatch_parse_line _ _ _ Hraw).
  destruct (parse_line p l) as [p1 ev]. simpl. rewrite IH.
  destruct (parse_lines p1 ls) as [p2 evs]. simpl.
  now destruct ev.
Qed.

(** The loop of [parse_chunk] dispatches every complete line of the
    buffer and keeps the text after the last newline. *)
Lemma parse_chunk_loop_spec (fuel : nat) (sp : StreamingResponseParser) :
  (List.length (buffer sp) <= fuel)%nat ->
  parse_chunk_loop fuel sp
  = let lines := split (buffer sp) NL in
    let (p', outs) := dispatch_all (config sp) (parser sp) (removelast lines) in
    ({| config := config sp; buffer := last lines []; parser := p' |}, outs).
Proof.
  revert sp; induction fuel as [|fuel IH]; intros [cfg buf p]; simpl; intros Hlen.
  - destruct buf; [reflexivity | simpl in Hlen; lia].
  - destruct (includes buf NL) eqn:Hin.
    + destruct (includes_decomp _ _ Hin) as [a [b [Hbuf [Ha Hidx]]]].
      rewrite Hidx. subst buf.
      rewrite substring_prefix, substring_from_suffix.
      rewrite split_at_first by assumption.
      pose proof (split_not_nil b NL) as Hne.
      destruct (split b NL) as [|l ls] eqn:Hb; [congruence|].
      change (removelast (a :: l :: ls)) with (a :: removelast (l :: ls)).
      change (last (a :: l :: ls) []) with (last (l :: ls) []).
      simpl dispatch_all.
      destruct (dispatch cfg p a) as [p1 out].
      rewrite IH; simpl.
      * rewrite Hb. destruct ls as [|l2 ls]; [reflexivity|].
        change (removelast (l :: l2 :: ls)) with (l :: removelast (l2 :: ls)).
        change (last (l :: l2 :: ls) []) with (last (l2 :: ls) []).
        now destruct (dispatch_all cfg p1 (l :: removelast (l2 :: ls))).
      * rewrite length_app in Hlen. simpl in Hlen. lia.
    + rewrite split_no_sep by assumption. reflexivity.
Qed.

(** The length of the buffer is enough fuel: more changes nothing. *)
Lemma parse_chunk_loop_fuel (fuel : nat) (sp : StreamingResponseParser) :
  (List.length (buffer sp) <= fuel)%nat ->
  parse_chunk_loop fuel sp = parse_chunk_loop (List.length (buffer sp)) sp.
Proof.
  intros H. now rewrite !parse_chunk_loop_spec by lia.
Qed.

Lemma last_app_nonempty (A : Type) (a b : list A) (d : A) :
  b <> [] -> last (a ++ b) d = last b d.
Proof.
  intros Hb. induction a as [|x a IH]; [reflexivity|].
  simpl. rewrite IH. destruct (a ++ b) eqn:E; [|reflexivity].
  apply app_eq_nil in E as [_ ->]. congruence.
Qed.

(** Feeding chunks one after the other is the same as feeding their
    concatenation at once. *)
Lemma feed_chunks_spec (chunks : list jstr) (sp : StreamingResponseParser) :
  includes (buffer sp) NL = false ->
  feed_chunks sp chunks
  = let lines := split (buffer sp ++ List.concat chunks) NL in
    let (p', outs) := dispatch_all (config sp) (parser sp) (removelast lines) in
    ({| config := config sp; buffer := last lines []; parser := p' |}, outs).
Proof.
  revert sp; induction chunks as [|c cs IH]; intros [cfg buf p]; simpl; intros Hbuf.
  - rewrite app_nil_r, split_no_sep by assumption. reflexivity.
  - unfold parse_chunk. rewrite parse_chunk_loop_spec by (simpl; lia). simpl.
    rewrite app_assoc, (split_app (buf ++ c)).
    pose proof (last_split_no_sep (buf ++ c) NL) as Hlast.
    pose proof (split_not_nil (last (split (buf ++ c) NL) [] ++ List.concat cs) NL) as Hne.
    rewrite removelast_app, last_app_nonempty by assumption.
    rewrite dispatch_all_app.
    destruct (dispatch_all cfg p (removelast (split (buf ++ c) NL))) as [p1 o1].
    rewrite IH by assumption. simpl.
    now destruct (dispatch_all cfg p1 _) as [p2 o2].
Qed.

(** The whole streaming run dispatches the lines of the concatenated
    chunks, the last one through [flush]. *)
Lemma stream_parse_spec (chunks : list jstr) (sp : StreamingResponseParser) :
  includes (buffer sp) NL = false ->
  stream_parse sp chunks
  = let (p', outs) :=
      dispatch_all (config sp) (parser sp) (split (buffer sp ++ List.concat chunks) NL) in
    ({| config := config sp; buffer := []; parser := p' |}, outs).
Proof.
  intros Hbuf. unfold stream_parse. rewrite feed_chunks_spec by assumption.
  set (lines := split (buffer sp ++ List.concat chunks) NL).
  assert (E : dispatch_all (config sp) (parser sp) lines
              = dispatch_all (config sp) (parser sp) (removelast lines ++ [last lines []])).
  { f_equal. apply app_removelast_last, split_not_nil. }
  cbv zeta. rewrite E, dispatch_all_app. simpl.
  destruct (dispatch_all (config sp) (parser sp) (removelast lines)) as [p1 o1].
  unfold flush. simpl.
  destruct (dispatch (config sp) p1 (last lines [])) as [p2 o2].
  now rewrite app_nil_r.
Qed.

(** Outside raw mode a streaming run is the line-by-line run on the
    concatenation of the chunks. *)
Lemma stream_parse_as_parse_stream (cfg : StreamConfig) (p : ClaudeResponseParser)
    (chunks : list jstr) :
  yield_raw cfg = false ->
  stream_parse {| config := cfg; buffer := []; parser := p |} chunks
  = ({| config := cfg; buffer := [];
        parser := fst (parse_stream p (List.concat chunks)) |},
     List.map YEvent (parse_stream_events p (List.concat chunks))).
Proof.
  intros Hraw.
  rewrite stream_parse_spec by reflexivity. simpl.
  rewrite dispatch_all_parse_lines by assumption.
  unfold parse_stream_events, parse_stream. simpl.
  now rewrite parse_lines_trim_stream.
Qed.

(** C1. Chunk-boundary invariance.  Outside raw mode, however a stream
    is cut into chunks (at any character offsets, down to one character
    per chunk), feeding the chunks through [parse_chunk] and then
    calling [flush] once yields exactly the events, in the same order,
    that [parse_stream] obtains from [parse_line] on the lines of the
    whole stream, and leaves the inner parser in the same state. *)
Theorem chunk_boundary_invariance (cfg : StreamConfig) (p : ClaudeResponseParser)
    (chunks : list jstr) (stream : jstr) :
  yield_raw cfg = false ->
  List.concat chunks = stream ->
  stream_parse {| config := cfg; buffer := []; parser := p |} chunks
  = ({| config := cfg; buffer := []; parser := fst (parse_stream p stream) |},
     List.map YEvent (parse_stream_events p stream)).
Proof.
  intros Hraw <-. now apply stream_parse_as_parse_stream.
Qed.

Lemma concat_singletons (s : jstr) : List.concat (List.map (fun c => [c]) s) = s.
Proof. induction s as [|c s IH]; simpl; [reflexivity | now rewrite IH]. Qed.

(** One character per chunk is one of the ways to cut a stream. *)
Lemma one_character_per_chunk (cfg : StreamConfig) (stream : jstr) :
  yield_raw cfg = false ->
  stream_parse_generator (List.map (fun c => [c]) stream) cfg
  = List.map YEvent (parse_stream_events new_parser stream).
Proof.
  intros Hraw. unfold stream_parse_generator, new_streaming_parser.
  rewrite stream_parse_as_parse_stream by assumption.
  now rewrite concat_singletons.
Qed.

(** The aggregate of a streaming run has the fields of the one-shot
    aggregate; only [raw_response] is rebuilt from the accepted lines. *)
Lemma get_response_agrees (cfg : StreamConfig) (chunks : list jstr) :
  yield_raw cfg = false ->
  let streamed := get_response (fst (stream_parse (new_streaming_parser cfg) chunks)) in
  let one_shot := parse_claude_stream (List.concat chunks) in
  cr_system_init streamed = cr_system_init one_shot
  /\ cr_assistant_responses streamed = cr_assistant_responses one_shot
  /\ cr_user_responses streamed = cr_user_responses one_shot
  /\ cr_result_summary streamed = cr_result_summary one_shot.
Proof.
  intros Hraw. unfold new_streaming_parser.
  rewrite stream_parse_as_parse_stream by assumption.
  now repeat split.
Qed.

(** After [parse_chunk] the buffer holds no newline: the loop has run
    to its exit condition. *)
Lemma parse_chunk_buffer (sp : StreamingResponseParser) (chunk : jstr) :
  includes (buffer (fst (parse_chunk sp chunk))) NL = false.
Proof.
  unfold parse_chunk. rewrite parse_chunk_loop_spec by (simpl; lia). simpl.
  destruct (dispatch_all _ _ _). simpl. apply last_split_no_sep.
Qed.

(** C2. Rejection is silent and non-corrupting.  In every parser state,
    [parse_line] on a blank line, on the line [not json] (with or
    without its quotes) or on the truncated line [{'type':'assistant']
    returns [null] and leaves the whole parser state as it was, so the
    lines that follow parse exactly as if the rejected line had not
    been there. *)
Theorem rejection_is_silent (p : ClaudeResponseParser) (line : jstr)
    (following : list jstr) :
  all_space line \/ line = js "not json" \/ line = js "'not json'"
    \/ line = js "{'type':'assistant'" ->
  parse_line p line = (p, None)
  /\ parse_lines p (line :: following) = parse_lines p following.
Proof.
  intros H.
  assert (Hrej : parse_line p line = (p, None)).
  { destruct H as [H | [H | [H | H]]].
    - apply parse_line_blank. now apply trim_all_space.
    - subst line. now apply parse_line_no_brace.
    - subst line. now apply parse_line_no_brace.
    - subst line. now apply parse_line_unclosed. }
  split; [exact Hrej|].
  simpl. rewrite Hrej. now destruct (parse_lines p following).
Qed.

(* ================================================================== *)
(** * The user branch: tool results *)
(* ================================================================== *)



Lemma typed_block_non_null (blocks : list json) :
  forallb typed_block blocks = true -> forallb non_null blocks = true.
Proof.
  induction blocks as [|b bs IH]; [reflexivity|].
  simpl. intros H. apply andb_true_iff in H as [Hb Hbs].
  rewrite (IH Hbs). now destruct b.
Qed.





(* ================================================================== *)
(** * The result branch and the queries on the summary *)
(* ================================================================== *)

(** The result branch stores the decoded object as it is: the type
    assertion checks nothing, so the fallback summary of the [catch]
    clause is never built. *)
Lemma result_branch_verbatim (p : ClaudeResponseParser) (line : jstr)
    (props : list (jstr * json)) :
  result_line line props ->
  parse_line p line
  = (set_result_summary (record_line p (trim line) (JObject props)) (JObject props),
     Some (EvResult (JObject props))).
Proof.
  intros (Hs & He & Hparse & Hty).
  assert (Hne : nonempty (trim line) = true)
    by (destruct (trim line); [discriminate | reflexivity]).
  unfold parse_line. rewrite Hne, Hs, He, Hparse. simpl negb. cbv iota.
  unfold classify. simpl get_prop. simpl bind.
  destruct (lookup props (js "type")) as [[| | |ty| |]|] eqn:Hlk; try discriminate.
  simpl in Hty. apply jstr_eqb_eq in Hty. subst ty. reflexivity.
Qed.

(** A result line that says [success] and has no [is_error] field is
    counted as a success. *)
Lemma result_without_is_error (p : ClaudeResponseParser) (line : jstr)
    (props : list (jstr * json)) :
  result_line line props ->
  lookup props (js "is_error") = None ->
  lookup props (js "subtype") = Some (JString (js "success")) ->
  was_successful (fst (parse_line p line)) = Ret true.
Proof.
  intros Hline Herr Hsub. rewrite (result_branch_verbatim p Hline).
  unfold was_successful. simpl. now rewrite Herr, Hsub.
Qed.

(** C5. Success predicate.  In every parser state whose result
    summary, when present, carries a boolean [is_error] (as the
    [ResultSummary] interface declares),
    [was_successful] returns a boolean, and it returns [true] exactly
    when a summary is present, its [is_error] is [false] and its
    subtype equals [success]. *)
Theorem success_predicate (p : ClaudeResponseParser) :
  summary_typed p ->
  exists b, was_successful p = Ret b /\ (b = true <-> success_spec p).
Proof.
  unfold summary_typed, was_successful, success_spec.
  destruct (result_summary p) as [[| | | | |props]|]; try contradiction.
  - intros [b Hb]. simpl. rewrite Hb.
    destruct (is_string (lookup props (js "subtype")) (js "success")) eqn:Hs.
    + destruct (lookup props (js "subtype")) as [[| | |s| |]|] eqn:Hlk; try discriminate.
      simpl in Hs. apply jstr_eqb_eq in Hs. subst s.
      exists (negb b). split; [unfold js_not; simpl; now rewrite andb_true_r|].
      split.
      * intros Hnb. exists props. destruct b; [discriminate | now repeat split].
      * intros (props' & Heq & Herr & _). injection Heq as <-.
        rewrite Hb in Herr. now injection Herr as ->.
    + exists false. split; [now rewrite andb_false_r|].
      split; [discriminate|].
      intros (props' & Heq & _ & Hsub). injection Heq as <-.
      rewrite Hsub in Hs. discriminate Hs.
  - intros _. exists false. split; [reflexivity|].
    split; [discriminate | intros (props & Heq & _); discriminate].
Qed.

(** C10. The cost query.  [get_cost] returns [null] when no result
    summary has been parsed, and also when the summary's
    [total_cost_usd] is the number 0; whenever it returns a number,
    that number is the summary's [total_cost_usd] and is not 0; and a
    [total_cost_usd] that is a number other than 0 is returned. *)
Theorem get_cost_zero_is_null (p : ClaudeResponseParser) :
  (result_summary p = None -> get_cost p = Some JNull)
  /\ (forall props q,
        result_summary p = Some (JObject props) ->
        lookup props (js "total_cost_usd") = Some (JNumber q) ->
        q == 0 -> get_cost p = Some JNull)
  /\ (forall q,
        get_cost p = Some (JNumber q) ->
        ~ q == 0
        /\ exists props, result_summary p = Some (JObject props)
                         /\ lookup props (js "total_cost_usd") = Some (JNumber q))
  /\ (forall props q,
        result_summary p = Some (JObject props) ->
        lookup props (js "total_cost_usd") = Some (JNumber q) ->
        ~ q == 0 -> get_cost p = Some (JNumber q)).
Proof.
  assert (Hz : forall q, Qis_zero q = true <-> q == 0).
  { intros q. unfold Qis_zero, Qeq. simpl. rewrite Z.eqb_eq. lia. }
  unfold get_cost. split; [|split; [|split]].
  - now intros ->.
  - intros props q -> Hlk Hq. simpl. rewrite Hlk.
    unfold or_null. simpl. apply Hz in Hq. now rewrite Hq.
  - intros q Hcost.
    destruct (result_summary p) as [[| | | | |props]|]; simpl in Hcost;
      try discriminate.
    destruct (lookup props (js "total_cost_usd")) as [v|] eqn:Hlk;
      unfold or_null in Hcost; simpl in Hcost; [|discriminate].
    destruct v as [|b'|q'|s|l|o]; simpl in Hcost; try discriminate.
    + destruct b'; discriminate.
    + destruct (Qis_zero q') eqn:Hq'; simpl in Hcost; [discriminate|].
      injection Hcost as ->. split.
      * intros Hq. apply Hz in Hq. congruence.
      * now exists props.
    + destruct s; discriminate.
  - intros props q -> Hlk Hq. simpl. rewrite Hlk.
    unfold or_null. simpl.
    destruct (Qis_zero q) eqn:E; [apply Hz in E; contradiction | reflexivity].
Qed.

(* ================================================================== *)
(** * Retry backoff *)
(* ================================================================== *)

Lemma Math_pow_power (base : Q) (n : nat) : Math_pow base n == power base n.
Proof.
  unfold Math_pow. induction n as [|n IH]; [reflexivity|].
  rewrite Nat2Z.inj_succ. unfold Z.succ. rewrite Z.add_comm.
  rewrite Qpower_plus' by lia. rewrite IH. reflexivity.
Qed.

Lemma Qmin_spec_bool (a b : Q) : Qmin a b == if Qle_bool a b then a else b.
Proof.
  destruct (Qle_bool a b) eqn:E.
  - apply Q.min_l. now apply Qle_bool_iff.
  - apply Q.min_r. apply Qlt_le_weak, Qnot_le_lt. intros H.
    apply Qle_bool_iff in H. congruence.
Qed.

(** C9. Retry backoff delay.  For every attempt number the computed
    delay equals [min(initial_delay * exponential_base^attempt,
    max_delay)]; with [initial_delay = 1], [exponential_base = 2] and
    [max_delay = 60], attempts 0 to 5 wait 1, 2, 4, 8, 16 and 32
    seconds and attempt 6 waits 60. *)
Theorem retry_backoff_delay :
  (forall (api : ClaudeAPI) (attempt : nat),
      _calculate_retry_delay api attempt
      == backoff_spec (retry (api_config api)) attempt)
  /\ List.map (_calculate_retry_delay (api_with_retry DEFAULT_RETRY_CONFIG))
              [0; 1; 2; 3; 4; 5; 6]%nat
     = [1; 2; 4; 8; 16; 32; 60].
Proof.
  split; [|reflexivity].
  intros api attempt. unfold _calculate_retry_delay, backoff_spec.
  set (r := retry (api_config api)).
  set (a := initial_delay r * Math_pow (exponential_base r) attempt).
  set (b := initial_delay r * power (exponential_base r) attempt).
  assert (E : a == b) by (unfold a, b; now rewrite Math_pow_power).
  assert (Eb : Qle_bool a (max_delay r) = Qle_bool b (max_delay r)).
  { apply eq_true_iff_eq. rewrite !Qle_bool_iff. now rewrite E. }
  rewrite Qmin_spec_bool, Eb.
  destruct (Qle_bool b (max_delay r)); [exact E | reflexivity].
Qed.

(* ================================================================== *)
(** * Rate limiting *)
(* ================================================================== *)

Lemma reset_hour_minute_fields (s : RateLimitState) (now : Z) :
  requests_this_minute (reset_hour s now) = requests_this_minute s
  /\ minute_reset_time (reset_hour s now) = minute_reset_time s.
Proof.
  unfold reset_hour. now destruct (now - hour_reset_time s >=? 3600000)%Z.
Qed.

Lemma reset_minute_hour_fields (s : RateLimitState) (now : Z) :
  requests_this_hour (reset_minute s now) = requests_this_hour s
  /\ hour_reset_time (reset_minute s now) = hour_reset_time s.
Proof.
  unfold reset_minute. now destruct (now - minute_reset_time s >=? 60000)%Z.
Qed.

Lemma should_delay_state (s : RateLimitState) (cfg : RateLimitConfig) (now : Z) :
  fst (should_delay s cfg now) = reset_hour (reset_minute s now) now.
Proof.
  unfold should_delay.
  destruct (_ >=? requests_per_minute cfg)%Z; [reflexivity|].
  now destruct (_ >=? requests_per_hour cfg)%Z.
Qed.

Lemma should_delay_nonneg (s : RateLimitState) (cfg : RateLimitConfig) (now : Z) :
  0 <= snd (snd (should_delay s cfg now)).
Proof.
  unfold should_delay.
  destruct (_ >=? requests_per_minute cfg)%Z; [apply Q.le_max_l|].
  destruct (_ >=? requests_per_hour cfg)%Z; [apply Q.le_max_l|].
  simpl. apply Qle_refl.
Qed.

(** The remaining time of a window that is [elapsed] milliseconds old. *)
Lemma remaining_bounds (window elapsed : Z) :
  (0 <= elapsed < window * 1000)%Z ->
  0 < inject_Z window - inject_Z elapsed / 1000
  /\ inject_Z window - inject_Z elapsed / 1000 <= inject_Z window.
Proof.
  intros H. unfold Qlt, Qle, Qminus, Qdiv, Qplus, Qopp, Qmult, Qinv, inject_Z.
  simpl. lia.
Qed.

Lemma minute_window_full (s : RateLimitState) (cfg : RateLimitConfig) (now : Z) :
  (0 <= now - minute_reset_time s < 60000)%Z ->
  (requests_per_minute cfg <= requests_this_minute s)%Z ->
  exists d, snd (should_delay s cfg now) = (true, d) /\ 0 < d /\ d <= 60.
Proof.
  intros Hwin Hfull. unfold should_delay.
  destruct (reset_hour_minute_fields (reset_minute s now) now) as [Hc Ht].
  assert (Hm : reset_minute s now = s).
  { unfold reset_minute.
    destruct (now - minute_reset_time s >=? 60000)%Z eqn:E; [lia | reflexivity]. }
  rewrite Hm in Hc, Ht. rewrite Hm, Hc, Ht.
  destruct (requests_this_minute s >=? requests_per_minute cfg)%Z eqn:E; [|lia].
  eexists. split; [reflexivity|].
  destruct (@remaining_bounds 60%Z (now - minute_reset_time s)%Z) as [Hpos Hle]; [lia|].
  change (inject_Z 60) with 60 in *.
  split.
  - eapply Qlt_le_trans; [exact Hpos | apply Q.le_max_r].
  - apply Q.max_lub; [discriminate | exact Hle].
Qed.

(** C8, amended. Rate-limit windowing with lazy reset.  With a ceiling
    of 2 requests per minute, after 2 recorded requests a check made
    within the same minute window reports a delay that is positive and
    at most 60 seconds.  Whenever the time elapsed since a window's
    start exceeds the window length (60 s for the minute window, 3600 s
    for the hour window), the next check resets that window's counter
    to 0 and its start to now; that check reports no delay when, in
    addition, the window's ceiling is positive and the other window's
    counter is below its own ceiling after the check.  The delay
    reported is never negative. *)
Theorem rate_limit_windowing :
  (forall (s : RateLimitState) (cfg : RateLimitConfig) (t1 t2 now : Z),
      requests_per_minute cfg = 2%Z ->
      (0 <= requests_this_minute s)%Z ->
      (0 <= now - minute_reset_time s < 60000)%Z ->
      exists d,
        snd (should_delay (record_request (record_request s t1) t2) cfg now) = (true, d)
        /\ 0 < d /\ d <= 60)
  /\ (forall (s : RateLimitState) (cfg : RateLimitConfig) (now : Z),
        (now - minute_reset_time s > 60000)%Z ->
        let (s', r) := should_delay s cfg now in
        requests_this_minute s' = 0%Z /\ minute_reset_time s' = now
        /\ ((0 < requests_per_minute cfg)%Z ->
            (requests_this_hour s' < requests_per_hour cfg)%Z ->
            r = (false, 0)))
  /\ (forall (s : RateLimitState) (cfg : RateLimitConfig) (now : Z),
        (now - hour_reset_time s > 3600000)%Z ->
        let (s', r) := should_delay s cfg now in
        requests_this_hour s' = 0%Z /\ hour_reset_time s' = now
        /\ ((0 < requests_per_hour cfg)%Z ->
            (requests_this_minute s' < requests_per_minute cfg)%Z ->
            r = (false, 0)))
  /\ (forall (s : RateLimitState) (cfg : RateLimitConfig) (now : Z),
        0 <= snd (snd (should_delay s cfg now))).
Proof.
  repeat split.
  - intros s cfg t1 t2 now Hcfg Hcount Hwin.
    apply minute_window_full; simpl; lia.
  - intros s cfg now Hold.
    pose proof (should_delay_state s cfg now) as Hst.
    destruct (reset_hour_minute_fields (reset_minute s now) now) as [Hc Ht].
    assert (Hm : requests_this_minute (reset_minute s now) = 0%Z
                 /\ minute_reset_time (reset_minute s now) = now).
    { unfold reset_minute.
      destruct (now - minute_reset_time s >=? 60000)%Z eqn:E; [now split | lia]. }
    destruct Hm as [Hm0 Hm1].
    unfold should_delay in *. rewrite Hc, Hm0 in *.
    destruct (0 >=? requests_per_minute cfg)%Z eqn:E1.
    + simpl in Hst. repeat split; try congruence; try lia.
    + destruct (_ >=? requests_per_hour cfg)%Z eqn:E2; simpl in Hst;
        repeat split; try congruence; try lia.
  - intros s cfg now Hold.
    assert (Hh : requests_this_hour (reset_hour (reset_minute s now) now) = 0%Z
                 /\ hour_reset_time (reset_hour (reset_minute s now) now) = now).
    { destruct (reset_minute_hour_fields s now) as [_ Ht].
      unfold reset_hour. rewrite Ht.
      destruct (now - hour_reset_time s >=? 3600000)%Z eqn:E; [now split | lia]. }
    destruct Hh as [Hh0 Hh1].
    unfold should_delay. rewrite Hh0.
    destruct (_ >=? requests_per_minute cfg)%Z eqn:E1.
    + repeat split; try assumption; lia.
    + destruct (0 >=? requests_per_hour cfg)%Z eqn:E2;
        repeat split; try assumption; lia.
  - apply should_delay_nonneg.
Qed.

(* ================================================================== *)
(** * The execution controller *)
(* ================================================================== *)








Lemma check_rate_limit_frame (api : ClaudeAPI) (clock wake : Z) :
  let '(api1, _, tr1) := _check_rate_limit api clock wake in
  session api1 = session api
  /\ api_config api1 = api_config api
  /\ rate_limiter api1
     = option_map (fun rl => replay_limiter (rate_limit (api_config api)) rl tr1)
                  (rate_limiter api)
  /\ count_records tr1 = 0%nat /\ count_runs tr1 = 0%nat
  /\ records_follow_runs tr1 = true /\ outputs_of tr1 = [].
Proof.
  unfold _check_rate_limit.
  destruct (rate_limiter api) as [rl|] eqn:Hrl.
  - destruct (enabled (rate_limit (api_config api))); simpl.
    + destruct (should_delay rl _ clock) as [rl' [d secs]] eqn:E.
      destruct d; simpl; rewrite E; now repeat split.
    + rewrite Hrl. now repeat split.
  - rewrite Hrl. now repeat split.
Qed.

















(* ================================================================== *)
(** * The line parser as an accumulator *)
(* ================================================================== *)

Ltac break_match :=
  match goal with
  | |- context [match ?x with _ => _ end] => destruct x eqn:?
  | H : context [match ?x with _ => _ end] |- _ => destruct x eqn:?
  end.

Lemma assistant_content_filter (items kept : list json) :
  assistant_content items = Ret kept -> kept = filter known_content items.
Proof.
  revert kept; induction items as [|item rest IH]; intros kept; simpl.
  - now intros [= <-].
  - destruct item as [| | | | |props]; simpl; try discriminate;
      destruct (assistant_content rest) as [tl|]; simpl; try discriminate;
      specialize (IH tl eq_refl); subst tl; try now intros [= <-].
    destruct (is_string (lookup props (js "type")) (js "text"));
      [now intros [= <-]|].
    destruct (is_string (lookup props (js "type")) (js "thinking"));
      [now intros [= <-]|].
    destruct (is_string (lookup props (js "type")) (js "tool_use"));
      now intros [= <-].
Qed.


Lemma filter_known_content (items : list json) :
  forallb known_content (filter known_content items) = true.
Proof.
  induction items as [|item rest IH]; [reflexivity|].
  simpl. destruct (known_content item) eqn:E; [simpl; now rewrite E | exact IH].
Qed.

(** What [classify] does, when it does not raise. *)
Lemma classify_effect (p p' : ClaudeResponseParser) (data : json) (ev : option Event) :
  classify p data = Ret (p', ev) ->
  p' = apply_event p ev
  /\ match ev with
     | Some (EvAssistant a) => forallb known_content (am_content (ar_message a)) = true
     | _ => True
     end.
Proof.
  unfold classify, as_ResultSummary.
  destruct data as [| | | | |props]; simpl; try discriminate;
    try (intros [= <- <-]; now split).
  destruct (is_string (lookup props (js "type")) (js "system")
            && is_string (lookup props (js "subtype")) (js "init")).
  { intros [= <- <-]. now split. }
  destruct (is_string (lookup props (js "type")) (js "assistant")).
  { destruct (get_prop _ (js "content")) as [c|]; simpl; [|discriminate].
    destruct (iterate _) as [items|]; simpl; [|discriminate].
    destruct (assistant_content items) as [kept|] eqn:Hk; simpl; [|discriminate].
    intros [= <- <-]. split; [reflexivity|]. simpl.
    rewrite (assistant_content_filter _ Hk). apply filter_known_content. }
  destruct (is_string (lookup props (js "type")) (js "user")).
  { destruct (get_prop _ (js "content")) as [c|]; simpl; [|discriminate].
    destruct (iterate _) as [items|]; simpl; [|discriminate].
    destruct (user_content items) as [results|]; simpl; [|discriminate].
    intros [= <- <-]. now split. }
  destruct (is_string (lookup props (js "type")) (js "result")).
  { intros [= <- <-]. now split. }
  intros [= <- <-]. now split.
Qed.

(** One call of [parse_line]: either nothing at all happens, or the
    trimmed line is logged with its decoded object and at most one
    accumulator takes the returned event. *)
Lemma parse_line_effect (p p' : ClaudeResponseParser) (line : jstr) (ev : option Event) :
  parse_line p line = (p', ev) ->
  (p' = p /\ ev = None)
  \/ (exists data,
        log_entry_ok (trim line) data
        /\ p' = apply_event (record_line p (trim line) data) ev
        /\ match ev with
           | Some (EvAssistant a) =>
               forallb known_content (am_content (ar_message a)) = true
           | _ => True
           end).
Proof.
  unfold parse_line.
  destruct (nonempty (trim line)) eqn:Hne; simpl; [|intros [= <- <-]; now left].
  destruct (startsWith (trim line) [LBRACE]) eqn:Hs; simpl;
    [|intros [= <- <-]; now left].
  destruct (endsWith (trim line) [RBRACE]) eqn:He; simpl;
    [|intros [= <- <-]; now left].
  destruct (JSON_parse (trim line)) as [data|] eqn:Hp; [|intros [= <- <-]; now left].
  assert (Hlog : log_entry_ok (trim line) data)
    by (unfold log_entry_ok; now rewrite trim_idem).
  destruct (classify _ data) as [[p1 ev1]|] eqn:Hc.
  - intros [= <- <-]. right. exists data.
    destruct (classify_effect _ _ Hc) as [Hp1 Hk].
    split; [exact Hlog | split; [exact Hp1 | exact Hk]].
  - intros [= <- <-]. right. exists data.
    split; [exact Hlog | split; [reflexivity | exact I]].
Qed.

Lemma apply_event_fields (q : ClaudeResponseParser) (ev : option Event) :
  assistant_responses (apply_event q ev)
  = assistant_responses q ++ assistants_of (event_of_option ev)
  /\ user_responses (apply_event q ev) = user_responses q ++ users_of (event_of_option ev)
  /\ system_init (apply_event q ev) = last_init (system_init q) (event_of_option ev)
  /\ result_summary (apply_event q ev) = last_result (result_summary q) (event_of_option ev)
  /\ raw_lines (apply_event q ev) = raw_lines q
  /\ events (apply_event q ev) = events q.
Proof.
  destruct ev as [[d|a|u|d]|]; simpl; rewrite ?app_nil_r; now repeat split.
Qed.

Lemma parse_lines_cons (p : ClaudeResponseParser) (line : jstr) (rest : list jstr) :
  parse_lines p (line :: rest)
  = (fst (parse_lines (fst (parse_line p line)) rest),
     event_of_option (snd (parse_line p line))
     ++ snd (parse_lines (fst (parse_line p line)) rest)).
Proof.
  simpl. destruct (parse_line p line) as [p1 ev]. simpl.
  destruct (parse_lines p1 rest) as [p2 evs]. now destruct ev.
Qed.

(** How one line moves the four accumulators. *)
Lemma parse_line_fields (p : ClaudeResponseParser) (line : jstr) :
  let p' := fst (parse_line p line) in
  let ev := event_of_option (snd (parse_line p line)) in
  assistant_responses p' = assistant_responses p ++ assistants_of ev
  /\ user_responses p' = user_responses p ++ users_of ev
  /\ system_init p' = last_init (system_init p) ev
  /\ result_summary p' = last_result (result_summary p) ev.
Proof.
  destruct (parse_line p line) as [p' ev] eqn:E. simpl.
  destruct (parse_line_effect _ _ E) as [[-> ->] | (data & _ & -> & _)].
  - simpl. rewrite !app_nil_r. now repeat split.
  - destruct (apply_event_fields (record_line p (trim line) data) ev)
      as (Ha & Hu & Hi & Hr & _). now repeat split.
Qed.

Lemma last_init_app (before : jsval) (a b : list Event) :
  last_init before (a ++ b) = last_init (last_init before a) b.
Proof. apply fold_left_app. Qed.

Lemma last_result_app (before : jsval) (a b : list Event) :
  last_result before (a ++ b) = last_result (last_result before a) b.
Proof. apply fold_left_app. Qed.

(** The accumulators after a run of [parse_lines], field by field. *)
Lemma accumulators_fields (p : ClaudeResponseParser) (lines : list jstr) :
  let p' := fst (parse_lines p lines) in
  let evs := snd (parse_lines p lines) in
  assistant_responses p' = assistant_responses p ++ assistants_of evs
  /\ user_responses p' = user_responses p ++ users_of evs
  /\ system_init p' = last_init (system_init p) evs
  /\ result_summary p' = last_result (result_summary p) evs.
Proof.
  revert p; induction lines as [|line rest IH]; intros p.
  - simpl. rewrite !app_nil_r. now repeat split.
  - rewrite parse_lines_cons. simpl fst. simpl snd.
    destruct (parse_line_fields p line) as (Ha & Hu & Hi & Hr).
    destruct (IH (fst (parse_line p line))) as (Ha' & Hu' & Hi' & Hr').
    unfold assistants_of, users_of in *.
    rewrite !flat_map_app, last_init_app, last_result_app.
    rewrite Ha', Hu', Hi', Hr', Ha, Hu, Hi, Hr.
    now rewrite <- !app_assoc.
Qed.

(** X1. The accumulators are projections of the event sequence: after
    [parse_stream], the assistant and user lists have grown by exactly
    the assistant and user events [parse_line] returned, in order, and
    [system_init] / [result_summary] hold the last [SessionInit] /
    [ResultSummary] returned (an earlier one is overwritten), or what
    they held before if none was returned. *)
Theorem accumulators_follow_events (p : ClaudeResponseParser) (stream : jstr) :
  let p' := fst (parse_stream p stream) in
  let evs := parse_stream_events p stream in
  assistant_responses p' = assistant_responses p ++ assistants_of evs
  /\ user_responses p' = user_responses p ++ users_of evs
  /\ system_init p' = last_init (system_init p) evs
  /\ result_summary p' = last_result (result_summary p) evs.
Proof.
  unfold parse_stream, parse_stream_events. cbn [fst].
  apply accumulators_fields.
Qed.

Lemma logs_ok_step (p : ClaudeResponseParser) (line : jstr) :
  logs_ok p -> logs_ok (fst (parse_line p line)).
Proof.
  intros Hp. destruct (parse_line p line) as [p' ev] eqn:E. simpl.
  destruct (parse_line_effect _ _ E) as [[-> ->] | (data & Hlog & -> & _)];
    [exact Hp|].
  destruct (apply_event_fields (record_line p (trim line) data) ev)
    as (_ & _ & _ & _ & Hraw & Hev).
  unfold logs_ok. rewrite Hraw, Hev. simpl.
  apply Forall2_app; [exact Hp|]. constructor; [exact Hlog | constructor].
Qed.

Lemma logs_ok_run (p : ClaudeResponseParser) (lines : list jstr) :
  logs_ok p -> logs_ok (fst (parse_lines p lines)).
Proof.
  revert p; induction lines as [|line rest IH]; intros p Hp; [exact Hp|].
  rewrite parse_lines_cons. simpl. now apply IH, logs_ok_step.
Qed.

(** X2. The two logs stay paired: on every state reached from a fresh
    parser, [raw_lines] and [events] have the same length and the k-th
    logged line is trimmed, framed by braces, and decodes to the k-th
    logged object. *)
Theorem logs_stay_paired (lines : list jstr) :
  let p := fst (parse_lines new_parser lines) in
  List.length (raw_lines p) = List.length (events p)
  /\ Forall2 log_entry_ok (raw_lines p) (events p).
Proof.
  assert (H : logs_ok (fst (parse_lines new_parser lines)))
    by (apply logs_ok_run; constructor).
  split; [exact (Forall2_length H) | exact H].
Qed.

(** Replaying the logged lines gives the same run. *)
Lemma replay_lines (p : ClaudeResponseParser) (lines : list jstr) :
  exists logged,
    raw_lines (fst (parse_lines p lines)) = raw_lines p ++ logged
    /\ parse_lines p logged = parse_lines p lines
    /\ Forall (fun l => exists line, In line lines /\ l = trim line) logged.
Proof.
  revert p; induction lines as [|line rest IH]; intros p.
  - exists []. simpl. rewrite app_nil_r. now repeat split.
  - rewrite parse_lines_cons. simpl fst.
    destruct (IH (fst (parse_line p line))) as (logged & Hraw & Hrun & Hin).
    assert (Hin' : Forall (fun l => exists line0, In line0 (line :: rest) /\ l = trim line0)
                          logged).
    { eapply Forall_impl; [|exact Hin]. intros l (l0 & Hl0 & ->).
      exists l0. split; [now right | reflexivity]. }
    destruct (parse_line p line) as [p1 ev] eqn:E. simpl in *.
    destruct (parse_line_effect _ _ E) as [[-> ->] | (data & Hlog & Hp1 & _)].
    + exists logged. repeat split; try assumption.
      rewrite Hrun. simpl. now destruct (parse_lines p rest).
    + exists (trim line :: logged). repeat split.
      * rewrite Hraw, Hp1.
        destruct (apply_event_fields (record_line p (trim line) data) ev)
          as (_ & _ & _ & _ & Hr & _).
        rewrite Hr. simpl. now rewrite <- app_assoc.
      * rewrite parse_lines_cons, parse_line_trim, E. simpl. now rewrite Hrun.
      * constructor; [|exact Hin']. exists line. split; [now left | reflexivity].
Qed.

Lemma includes_app (a b : jstr) (c : char16) :
  includes (a ++ b) c = includes a c || includes b c.
Proof. unfold includes. apply existsb_app. Qed.

Lemma includes_trim (l : jstr) (c : char16) :
  includes l c = false -> includes (trim l) c = false.
Proof.
  destruct (trim_decomp l) as (w1 & w2 & _ & _ & Hl). intros H.
  rewrite Hl, !includes_app in H.
  apply orb_false_iff in H as [_ H]. now apply orb_false_iff in H as [H _].
Qed.

Lemma split_join (ls : list jstr) :
  ls <> [] ->
  Forall (fun l => includes l NL = false) ls ->
  split (join ls [NL]) NL = ls.
Proof.
  induction ls as [|l rest IH]; [congruence|]. intros _ H.
  inversion H as [|? ? Hl Hrest]; subst.
  destruct rest as [|l2 rest].
  - simpl. now apply split_no_sep.
  - change (join (l :: l2 :: rest) [NL]) with (l ++ NL :: join (l2 :: rest) [NL]).
    rewrite split_at_first by assumption.
    now rewrite IH.
Qed.

(** Parsing the logged lines joined by line breaks is the original run. *)
Lemma replay_joined (stream : jstr) :
  parse_lines new_parser
    (split (trim (join (raw_lines (fst (parse_stream new_parser stream))) [NL])) NL)
  = parse_lines new_parser (split (trim stream) NL).
Proof.
  unfold parse_stream. simpl fst.
  destruct (replay_lines new_parser (split (trim stream) NL)) as (logged & Hraw & Hrun & Hin).
  simpl in Hraw. rewrite Hraw, parse_lines_trim_stream.
  destruct logged as [|l logged].
  - simpl in *. now rewrite <- Hrun.
  - rewrite split_join; [exact Hrun | discriminate |].
    eapply Forall_impl; [|exact Hin]. intros a (l0 & Hl0 & ->).
    apply includes_trim.
    pose proof (split_pieces_no_sep (trim stream) NL) as Hall.
    rewrite Forall_forall in Hall. now apply Hall.
Qed.

(** X3. Round trip through [raw_response].  The aggregate of a
    streaming run (outside raw mode) rebuilds [raw_response] from the
    accepted lines; parsing that text in one shot gives back the very
    same aggregate, [raw_response] included. *)
Theorem raw_response_round_trip (cfg : StreamConfig) (chunks : list jstr) :
  yield_raw cfg = false ->
  let r := get_response (fst (stream_parse (new_streaming_parser cfg) chunks)) in
  parse_claude_stream (raw_response r) = r.
Proof.
  intros Hraw. unfold new_streaming_parser.
  rewrite stream_parse_as_parse_stream by assumption.
  unfold get_response, parse_claude_stream. simpl.
  set (stream := List.concat chunks).
  pose proof (replay_joined stream) as H.
  unfold parse_stream in *. simpl in *. now rewrite H.
Qed.




Lemma known_content_has_type (c : json) :
  known_content c
  = has_type (js "text") c || has_type (js "thinking") c || has_type (js "tool_use") c.
Proof. now destruct c. Qed.






(* ================================================================== *)
(** * The chunk reassembler: raw mode and buffering *)
(* ================================================================== *)

Lemma dispatch_all_raw (cfg : StreamConfig) (p : ClaudeResponseParser) (lines : list jstr) :
  yield_raw cfg = true ->
  dispatch_all cfg p lines
  = (p, List.map YRaw (filter (fun l => startsWith l [LBRACE]) (List.map trim lines))).
Proof.
  intros Hraw. induction lines as [|l ls IH]; [reflexivity|].
  cbn [dispatch_all List.map filter].
  unfold dispatch. rewrite Hraw.
  destruct (trim l) as [|c t] eqn:Hl; [cbn; now rewrite IH|].
  cbn [nonempty andb].
  destruct (startsWith (c :: t) [LBRACE]); now rewrite IH.
Qed.

(** X6. Raw mode parses nothing.  In raw mode a streaming run leaves
    the inner parser exactly as it was, and yields, in order, the
    trimmed lines of the stream that start with an opening brace,
    whether or not they end with a closing brace or decode. *)
Theorem raw_mode_parses_nothing (cfg : StreamConfig) (p : ClaudeResponseParser)
    (chunks : list jstr) :
  yield_raw cfg = true ->
  stream_parse {| config := cfg; buffer := []; parser := p |} chunks
  = ({| config := cfg; buffer := []; parser := p |},
     List.map YRaw (filter (fun l => startsWith l [LBRACE])
                           (List.map trim (split (List.concat chunks) NL)))).
Proof.
  intros Hraw. rewrite stream_parse_spec by reflexivity. simpl.
  now rewrite dispatch_all_raw.
Qed.

(** X7. Nothing is yielded before its newline arrives.  When the buffer
    and the new chunk hold no newline, [parse_chunk] yields nothing and
    leaves the inner parser untouched, whatever the buffered text
    (a complete JSON object included): the chunk is only appended to
    the buffer. *)
Theorem chunk_without_newline (sp : StreamingResponseParser) (chunk : jstr) :
  includes (buffer sp) NL = false ->
  includes chunk NL = false ->
  parse_chunk sp chunk
  = ({| config := config sp; buffer := buffer sp ++ chunk; parser := parser sp |}, []).
Proof.
  intros Hb Hc. unfold parse_chunk.
  rewrite parse_chunk_loop_spec by (simpl; lia). simpl.
  rewrite split_no_sep; [reflexivity|].
  rewrite includes_app, Hb, Hc. reflexivity.
Qed.

(** X8. [flush] empties the buffer, so a second [flush] yields nothing
    and changes nothing; a chunk fed after a [flush] starts a new line. *)
Theorem flush_twice (sp : StreamingResponseParser) (chunk : jstr) :
  flush (fst (flush sp)) = (fst (flush sp), [])
  /\ parse_chunk (fst (flush sp)) chunk
     = parse_chunk {| config := config sp; buffer := [];
                      parser := parser (fst (flush sp)) |} chunk.
Proof.
  unfold flush. destruct (dispatch (config sp) (parser sp) (buffer sp)) as [p' out].
  simpl. split; reflexivity.
Qed.

(* ================================================================== *)
(** * Session and rate limiter: further properties *)
(* ================================================================== *)

Lemma slice_from_suffix (A : Type) (l : list A) (start : Z) :
  exists dropped, l = dropped ++ slice_from l start.
Proof.
  unfold slice_from. eexists. symmetry. apply firstn_skipn.
Qed.

(** X9. [get_context] returns a suffix of the history.  Whatever the
    argument, the result is the history with some leading messages
    dropped; without argument or with 0 nothing is dropped; a positive
    [n] keeps the last [min n length] messages; a negative [n] does
    not fail but drops the first [min |n| length] messages. *)
Theorem get_context_suffix (s : Session) :
  (forall m, exists dropped, message_history s = dropped ++ get_context s m)
  /\ get_context s None = message_history s
  /\ get_context s (Some 0%Z) = message_history s
  /\ (forall n, (0 < n)%Z ->
        get_context s (Some n)
        = skipn (List.length (message_history s) - Z.to_nat n) (message_history s)
        /\ List.length (get_context s (Some n))
           = Nat.min (Z.to_nat n) (List.length (message_history s)))
  /\ (forall n, (n < 0)%Z ->
        get_context s (Some n) = skipn (Z.to_nat (- n)) (message_history s)).
Proof.
  split; [|split; [reflexivity | split; [reflexivity | split]]].
  - intros [n|]; simpl; [|now exists []].
    destruct (n =? 0)%Z; [now exists [] | apply slice_from_suffix].
  - intros n Hn. unfold get_context, slice_from.
    destruct (n =? 0)%Z eqn:E; [lia|].
    destruct (- n <? 0)%Z eqn:E2; [|lia].
    replace (Z.to_nat (Z.max (Z.of_nat (List.length (message_history s)) + - n) 0))
      with (List.length (message_history s) - Z.to_nat n)%nat by lia.
    split; [reflexivity|]. rewrite length_skipn. lia.
  - intros n Hn. unfold get_context, slice_from.
    destruct (n =? 0)%Z eqn:E; [lia|].
    destruct (- n <? 0)%Z eqn:E2; [lia|].
    destruct (Z.min_spec (- n) (Z.of_nat (List.length (message_history s))))
      as [[Hlt ->] | [Hge ->]]; [reflexivity|].
    rewrite Nat2Z.id. rewrite !skipn_all2; [reflexivity | lia | lia].
Qed.

Lemma resets_settle (s : RateLimitState) (now : Z) :
  let s2 := reset_hour (reset_minute s now) now in
  reset_minute s2 now = s2 /\ reset_hour s2 now = s2
  /\ (now - minute_reset_time s2 < 60000)%Z
  /\ (now - hour_reset_time s2 < 3600000)%Z.
Proof.
  unfold reset_hour, reset_minute.
  destruct (now - minute_reset_time s >=? 60000)%Z eqn:Em;
    destruct (now - hour_reset_time s >=? 3600000)%Z eqn:Eh; simpl;
    rewrite ?Em, ?Eh; simpl;
    replace (now - now >=? 60000)%Z with false by lia;
    replace (now - now >=? 3600000)%Z with false by lia;
    rewrite ?Em, ?Eh; repeat split; lia.
Qed.

(** X10. A rate-limit check is idempotent at a given instant: checking
    again at the same time changes the state no further and returns the
    same answer. *)
Theorem should_delay_idempotent (s : RateLimitState) (cfg : RateLimitConfig) (now : Z) :
  should_delay (fst (should_delay s cfg now)) cfg now = should_delay s cfg now.
Proof.
  rewrite should_delay_state.
  destruct (resets_settle s now) as (Hm & Hh & _).
  unfold should_delay at 1 2. rewrite Hm, Hh. reflexivity.
Qed.

(* ================================================================== *)
(** * The retry loop *)
(* ================================================================== *)




Lemma runs_of_length (tr : list Action) : List.length (runs_of tr) = count_runs tr.
Proof.
  unfold count_runs, runs_of. induction tr as [|a tr IH]; [reflexivity|].
  destruct a; simpl; now rewrite ?IH.
Qed.

Lemma should_retry_config (api api1 : ClaudeAPI) (e : jstr) :
  api_config api1 = api_config api -> _should_retry api1 e = _should_retry api e.
Proof. unfold _should_retry. now intros ->. Qed.




(** X13. An error that is not listed is not retried.  When the command
    of the first attempt is rejected with an error whose name is not in
    [retry_on], [execute] raises that error at once: after the
    rate-limit check, the trace holds this single run and nothing else,
    so no backoff sleep is made, and the session is left as it was.
    ([_run_command] rejects with plain [Error] objects, whose name the
    default [retry_on] list does not hold.) *)
Theorem unlisted_error_not_retried (env : Environment) (api : ClaudeAPI) (clock : Z)
    (e : jstr) :
  fst (env 0%nat) = Rejected e ->
  _should_retry api e = false ->
  let '(res, api', _, tr) := execute env api clock in
  res = Raised e
  /\ tr = snd (_check_rate_limit api clock (limit_wake env 0))
          ++ [ActRunCommand 0 (Rejected e)]
  /\ session api' = session api
  /\ (rate_limiter api = None -> tr = [ActRunCommand 0 (Rejected e)] /\ api' = api).
Proof.
  intros Henv Hno. unfold execute. cbn [execute_loop]. unfold try_block.
  pose proof (check_rate_limit_frame api clock (limit_wake env 0)) as Hchk.
  assert (Hnolim : rate_limiter api = None ->
                   _check_rate_limit api clock (limit_wake env 0) = (api, clock, []))
    by (intros H; unfold _check_rate_limit; now rewrite H).
  destruct (_check_rate_limit api clock (limit_wake env 0)) as [[api1 clock1] tr1].
  destruct Hchk as (Hs1 & Hc1 & _).
  destruct (command env 0%nat) as [result elapsed]. simpl in Henv. subst result.
  erewrite should_retry_config by exact Hc1. rewrite Hno. cbn [andb snd].
  split; [reflexivity|]. split; [reflexivity|]. split; [exact Hs1|].
  intros Hrl. specialize (Hnolim Hrl). now injection Hnolim as -> _ ->.
Qed.



Lemma failed_attempts_step (env : Environment) (api : ClaudeAPI) (k n : nat) :
  failed_attempts env api k (S (S n))
  = ActRunCommand k (fst (env k))
    :: ActSleep (_calculate_retry_delay api k * 1000)
    :: failed_attempts env api (S k) (S n).
Proof. reflexivity. Qed.

Lemma calculate_retry_delay_config (api api1 : ClaudeAPI) (k : nat) :
  api_config api1 = api_config api ->
  _calculate_retry_delay api1 k = _calculate_retry_delay api k.
Proof. unfold _calculate_retry_delay. now intros ->. Qed.

Lemma execute_loop_exhausted (env : Environment) (remaining attempt : nat)
    (last_error : option jstr) (api : ClaudeAPI) (clock : Z) :
  rate_limiter api = None ->
  remaining <> 0%nat ->
  (attempt + remaining = S (max_retries (retry (api_config api))))%nat ->
  (forall k, (attempt <= k < attempt + remaining)%nat ->
     exists e, fst (env k) = Rejected e /\ _should_retry api e = true) ->
  exists e clock',
    fst (env (max_retries (retry (api_config api)))) = Rejected e
    /\ execute_loop env remaining attempt last_error api clock
       = (Raised e, api, clock', failed_attempts env api attempt remaining).
Proof.
  intros Hrl. revert attempt last_error clock.
  induction remaining as [|remaining IH]; intros attempt last_error clock Hne Hsum Hall;
    [congruence|]. clear Hne.
  destruct (Hall attempt ltac:(lia)) as (e & He & Hretry).
  simpl. unfold try_block, _check_rate_limit. rewrite Hrl.
  destruct (command env attempt) as [result elapsed] eqn:Henv. simpl in He. subst result.
  rewrite Hretry. simpl andb.
  destruct remaining as [|remaining'].
  - replace (attempt <? max_retries (retry (api_config api)))%nat with false
      by (symmetry; apply Nat.ltb_ge; lia).
    exists e, (clock + elapsed)%Z. split; [|reflexivity].
    replace (max_retries (retry (api_config api))) with attempt by lia.
    now rewrite Henv.
  - replace (attempt <? max_retries (retry (api_config api)))%nat with true
      by (symmetry; apply Nat.ltb_lt; lia).
    destruct (IH (S attempt) (Some e) (backoff_wake env attempt)
                 ltac:(discriminate) ltac:(lia)) as (e' & clock' & He' & Hloop).
    { intros k Hk. apply Hall. lia. }
    exists e', clock'. split; [exact He'|].
    rewrite Hloop. reflexivity.
Qed.

(** X14. Retry exhaustion.  Without a rate limiter, when every attempt
    fails with an error listed in [retry_on], [execute] makes exactly
    [max_retries + 1] attempts, sleeps the backoff delay of attempt k
    after each attempt k but the last, raises the error of the last
    attempt unchanged, and leaves the controller as it was. *)
Theorem retries_exhausted (env : Environment) (api : ClaudeAPI) (clock : Z) :
  rate_limiter api = None ->
  (forall k, (k <= max_retries (retry (api_config api)))%nat ->
     exists e, fst (env k) = Rejected e /\ _should_retry api e = true) ->
  let '(res, api', _, tr) := execute env api clock in
  (exists e, fst (env (max_retries (retry (api_config api)))) = Rejected e
             /\ res = Raised e)
  /\ api' = api
  /\ tr = failed_attempts env api 0 (S (max_retries (retry (api_config api))))
  /\ List.map fst (runs_of tr) = seq 0 (S (max_retries (retry (api_config api))))
  /\ sleeps_of tr
     = List.map (fun k => _calculate_retry_delay api k * 1000)
                (seq 0 (max_retries (retry (api_config api)))).
Proof.
  intros Hrl Hall. unfold execute.
  destruct (@execute_loop_exhausted env (S (max_retries (retry (api_config api)))) 0
              None api clock Hrl ltac:(discriminate) ltac:(lia))
    as (e & clock' & He & Hloop).
  { intros k Hk. apply Hall. lia. }
  rewrite Hloop. split; [now exists e|]. split; [reflexivity|]. split; [reflexivity|].
  generalize (max_retries (retry (api_config api))) as n.
  generalize 0%nat as k. clear.
  intros k n. revert k. induction n as [|n IH]; intros k; [now split|].
  rewrite failed_attempts_step. destruct (IH (S k)) as [IH1 IH2].
  split.
  - change (List.map fst (runs_of (ActRunCommand k (fst (env k)) :: ?l)))
      with (k :: List.map fst (runs_of l)).
    cbn [seq]. f_equal. exact IH1.
  - change (sleeps_of (ActRunCommand k (fst (env k)) :: ActSleep ?ms :: ?l))
      with (ms :: sleeps_of l).
    cbn [seq List.map]. f_equal. exact IH2.
Qed.

Lemma power_nonneg (base : Q) (n : nat) : 0 <= base -> 0 <= power base n.
Proof.
  intros Hb. induction n as [|n IH]; simpl; [discriminate|].
  now apply Qmult_le_0_compat.
Qed.

Lemma power_grows (base : Q) (n : nat) : 1 <= base -> power base n <= power base (S n).
Proof.
  intros Hb. simpl.
  assert (H0 : 0 <= power base n)
    by (apply power_nonneg; eapply Qle_trans; [|exact Hb]; discriminate).
  rewrite <- (Qmult_1_l (power base n)) at 1.
  now apply Qmult_le_compat_r.
Qed.

(** X15. Bounds of the backoff delay.  The delay never exceeds
    [max_delay]; with non-negative [initial_delay], [exponential_base]
    and [max_delay] it is never negative; and with a non-negative
    [initial_delay] and a base of at least 1 it never decreases from
    one attempt to the next. *)
Theorem retry_delay_bounds (api : ClaudeAPI) (attempt : nat) :
  _calculate_retry_delay api attempt <= max_delay (retry (api_config api))
  /\ (0 <= initial_delay (retry (api_config api)) ->
      0 <= exponential_base (retry (api_config api)) ->
      0 <= max_delay (retry (api_config api)) ->
      0 <= _calculate_retry_delay api attempt)
  /\ (0 <= initial_delay (retry (api_config api)) ->
      1 <= exponential_base (retry (api_config api)) ->
      _calculate_retry_delay api attempt <= _calculate_retry_delay api (S attempt)).
Proof.
  unfold _calculate_retry_delay.
  set (r := retry (api_config api)).
  split; [apply Q.le_min_r|]. split.
  - intros Hi Hb Hm. apply Q.min_glb; [|exact Hm].
    rewrite Math_pow_power. apply Qmult_le_0_compat; [exact Hi|].
    now apply power_nonneg.
  - intros Hi Hb. apply Q.min_le_compat_r.
    rewrite !Math_pow_power.
    rewrite !(Qmult_comm (initial_delay r)).
    apply Qmult_le_compat_r; [|exact Hi].
    now apply power_grows.
Qed.

(* ================================================================== *)
(** * The session after a run *)
(* ================================================================== *)










(* ================================================================== *)
(** * The aggregate response *)
(* ================================================================== *)

Lemma classify_event_object (p p' : ClaudeResponseParser) (data : json) (e : Event) :
  classify p data = Ret (p', Some e) -> event_is_object e.
Proof.
  unfold classify, as_ResultSummary.
  destruct data as [| | | | |props]; simpl; try discriminate.
  destruct (is_string (lookup props (js "type")) (js "system")
            && is_string (lookup props (js "subtype")) (js "init")).
  { intros [= _ <-]. now exists props. }
  destruct (is_string (lookup props (js "type")) (js "assistant")).
  { destruct (get_prop _ (js "content")) as [c|]; simpl; [|discriminate].
    destruct (iterate _) as [items|]; simpl; [|discriminate].
    destruct (assistant_content items); simpl; [|discriminate].
    now intros [= _ <-]. }
  destruct (is_string (lookup props (js "type")) (js "user")).
  { destruct (get_prop _ (js "content")) as [c|]; simpl; [|discriminate].
    destruct (iterate _) as [items|]; simpl; [|discriminate].
    destruct (user_content items); simpl; [|discriminate].
    now intros [= _ <-]. }
  destruct (is_string (lookup props (js "type")) (js "result")).
  { intros [= _ <-]. now exists props. }
  discriminate.
Qed.

Lemma parse_line_event_object (p : ClaudeResponseParser) (line : jstr) :
  Forall event_is_object (event_of_option (snd (parse_line p line))).
Proof.
  unfold parse_line.
  destruct (negb (nonempty (trim line))); [constructor|].
  destruct (negb (startsWith (trim line) [LBRACE])); [constructor|].
  destruct (negb (endsWith (trim line) [RBRACE])); [constructor|].
  destruct (JSON_parse (trim line)) as [data|]; [|constructor].
  destruct (classify _ data) as [[p1 [e|]]|] eqn:Hc; simpl; try constructor;
    [|constructor].
  exact (classify_event_object _ _ Hc).
Qed.

Lemma parse_lines_event_object (p : ClaudeResponseParser) (lines : list jstr) :
  Forall event_is_object (snd (parse_lines p lines)).
Proof.
  revert p; induction lines as [|line rest IH]; intros p; [constructor|].
  rewrite parse_lines_cons. simpl. apply Forall_app. split.
  - apply parse_line_event_object.
  - apply IH.
Qed.

Lemma last_init_object (evs : list Event) (before : jsval) :
  Forall event_is_object evs ->
  (before = None \/ exists props, before = Some (JObject props)) ->
  last_init before evs = None \/ exists props, last_init before evs = Some (JObject props).
Proof.
  intros H. revert before. induction H as [|e evs He _ IH]; intros before Hb;
    [exact Hb|].
  simpl. apply IH. destruct e; try exact Hb.
  destruct He as [props ->]. right. now exists props.
Qed.

Lemma last_result_object (evs : list Event) (before : jsval) :
  Forall event_is_object evs ->
  (before = None \/ exists props, before = Some (JObject props)) ->
  last_result before evs = None
  \/ exists props, last_result before evs = Some (JObject props).
Proof.
  intros H. revert before. induction H as [|e evs He _ IH]; intros before Hb;
    [exact Hb|].
  simpl. apply IH. destruct e; try exact Hb.
  destruct He as [props ->]. right. now exists props.
Qed.

Lemma last_init_short (evs : list Event) (before : jsval) :
  (List.length (event_of_option (option_map EvSystemInit (last_init before evs)))
   <= List.length (event_of_option (option_map EvSystemInit before))
      + List.length (inits_of evs))%nat.
Proof.
  revert before; induction evs as [|e evs IH]; intros before; simpl; [lia|].
  destruct e; simpl; try apply IH.
  specialize (IH (Some data)). simpl in IH. lia.
Qed.

Lemma last_result_short (evs : list Event) (before : jsval) :
  (List.length (event_of_option (option_map EvResult (last_result before evs)))
   <= List.length (event_of_option (option_map EvResult before))
      + List.length (results_of evs))%nat.
Proof.
  revert before; induction evs as [|e evs IH]; intros before; simpl; [lia|].
  destruct e; simpl; try apply IH.
  specialize (IH (Some data)). simpl in IH. lia.
Qed.

Lemma events_by_kind (evs : list Event) :
  List.length evs
  = (List.length (inits_of evs) + List.length (assistants_of evs)
     + List.length (users_of evs) + List.length (results_of evs))%nat.
Proof.
  induction evs as [|e evs IH]; [reflexivity|].
  destruct e; simpl; rewrite IH; lia.
Qed.

(** X19. The aggregate lists events by kind.  For the aggregate of a
    one-shot parse, [get_all_events] is the last [SessionInit]
    returned while parsing (if any), then every assistant turn, then
    every user turn, then the last [ResultSummary] (if any): turns are
    grouped by kind whatever their order of arrival, an earlier init or
    result is lost, so the listing is never longer than the sequence of
    events returned; and [assistant_response] is the first assistant
    turn that arrived. *)
Theorem get_all_events_categorical (stream : jstr) :
  let r := parse_claude_stream stream in
  let evs := parse_stream_events new_parser stream in
  get_all_events r = categorical evs
  /\ (List.length (get_all_events r) <= List.length evs)%nat
  /\ assistant_response r = hd_error (assistants_of evs).
Proof.
  cbv zeta. unfold parse_claude_stream, parse_stream_events, parse_stream.
  set (lines := split (trim stream) NL).
  destruct (accumulators_fields new_parser lines) as (Ha & Hu & Hi & Hr).
  pose proof (parse_lines_event_object new_parser lines) as Hobj.
  set (evs := snd (parse_lines new_parser lines)) in *.
  set (p := fst (parse_lines new_parser lines)) in *.
  simpl in Ha, Hu, Hi, Hr.
  assert (Hall : get_all_events
                   {| cr_system_init := system_init p;
                      cr_assistant_responses := assistant_responses p;
                      cr_user_responses := user_responses p;
                      cr_result_summary := result_summary p;
                      raw_response := stream |} = categorical evs).
  { unfold get_all_events, categorical. simpl. rewrite Ha, Hu, Hi, Hr.
    destruct (last_init_object (before := None) Hobj (or_introl eq_refl))
      as [-> | [props1 ->]];
      destruct (last_result_object (before := None) Hobj (or_introl eq_refl))
        as [-> | [props2 ->]]; reflexivity. }
  simpl. split; [exact Hall|]. split.
  - rewrite Hall. unfold categorical.
    rewrite !length_app, !length_map.
    pose proof (last_init_short evs None) as H1.
    pose proof (last_result_short evs None) as H2.
    rewrite (events_by_kind evs). simpl in H1, H2. lia.
  - unfold assistant_response. simpl. rewrite Ha.
    now destruct (assistants_of evs).
Qed.

(* ================================================================== *)
(** * The command line *)
(* ================================================================== *)

Lemma default_allowed_not_handled (flag : jstr) :
  includes_str DEFAULT_ALLOWED_FLAGS flag && negb (includes_str handled_flags flag)
  = includes_str free_flags flag.
Proof.
  unfold includes_str, DEFAULT_ALLOWED_FLAGS, handled_flags, free_flags.
  cbn [existsb].
  repeat match goal with
         | |- context [jstr_eqb flag ?lit] =>
             let E := fresh "E" in
             destruct (jstr_eqb flag lit) eqn:E;
             [apply jstr_eqb_eq in E; subst flag; reflexivity|]
         end.
  reflexivity.
Qed.

(** X20. Custom flags under the default allow-list.  With the default
    [allowed_flags], whatever [set_custom_flags] installs, the command
    line is the one built without custom flags, with, just before the
    prompt, the entries named [--temperature], [--max-tokens] or
    [--stop-sequence] (each followed by its value when that is not
    empty), in order; every other entry, a [--model] entry included,
    adds nothing.  The command line starts with the base command and
    ends with the prompt. *)
Theorem default_custom_flags (cfg : CommandConfig) (entries : list (jstr * jstr))
    (prompt : jstr) :
  allowed_flags cfg = DEFAULT_ALLOWED_FLAGS ->
  _build_command (set_custom_flags cfg entries) prompt
  = removelast (_build_command (set_custom_flags cfg []) prompt)
    ++ flat_map (fun '(flag, value) =>
                   if includes_str free_flags flag
                   then if nonempty value then [flag; value] else [flag]
                   else []) entries
    ++ [prompt]
  /\ exists front,
       _build_command (set_custom_flags cfg []) prompt
       = base_command ++ front ++ [prompt].
Proof.
  intros Hallowed.
  assert (Hfilter : custom_flag_args DEFAULT_ALLOWED_FLAGS entries
                    = flat_map (fun '(flag, value) =>
                                  if includes_str free_flags flag
                                  then if nonempty value then [flag; value] else [flag]
                                  else []) entries).
  { unfold custom_flag_args.
    induction entries as [|[flag value] rest IH]; [reflexivity|].
    cbn [flat_map]. rewrite IH. f_equal.
    rewrite <- default_allowed_not_handled.
    destruct (includes_str DEFAULT_ALLOWED_FLAGS flag); [|reflexivity].
    now destruct (includes_str handled_flags flag). }
  unfold _build_command, set_custom_flags.
  cbn [debug_enabled input_format model fallback_model allowed_tools disallowed_tools
       continue_last resume_session_id system_prompt additional_dirs allowed_flags
       custom_flags custom_flag_args flat_map].
  rewrite Hallowed, Hfilter.
  match goal with
  | |- ?base ++ ?a ++ ?b ++ ?c ++ ?d ++ ?e ++ ?f ++ ?g ++ ?h ++ ?i ++ ?custom ++ ?last
       = _ /\ _ =>
      set (front := a ++ b ++ c ++ d ++ e ++ f ++ g ++ h ++ i);
      assert (Hwith : forall tail,
                 base ++ a ++ b ++ c ++ d ++ e ++ f ++ g ++ h ++ i ++ tail
                 = (base ++ front) ++ tail)
        by (intros tail; unfold front; now rewrite <- !app_assoc)
  end.
  rewrite !Hwith. split.
  - cbn [app]. now rewrite removelast_last, <- app_assoc.
  - exists front. cbn [app]. now rewrite <- app_assoc.
Qed.

(* ================================================================== *)
(** * The line parser: what is logged, what is kept verbatim *)
(* ================================================================== *)

Lemma parse_line_decoded (p : ClaudeResponseParser) (line : jstr) (data : json) :
  decodes_to line data ->
  parse_line p line
  = match classify (record_line p (trim line) data) data with
    | Ret r => r
    | Thrown => (record_line p (trim line) data, None)
    end.
Proof.
  intros (Hs & He & Hparse).
  assert (Hne : nonempty (trim line) = true)
    by (destruct (trim line); [discriminate | reflexivity]).
  unfold parse_line. now rewrite Hne, Hs, He, Hparse.
Qed.

Lemma assistant_content_null (items : list json) :
  In JNull items -> assistant_content items = Thrown.
Proof.
  induction items as [|item rest IH]; [intros []|].
  intros [-> | Hin]; [reflexivity|].
  cbn [assistant_content]. rewrite (IH Hin).
  now destruct (get_prop item (js "type")).
Qed.

Lemma user_content_null (items : list json) :
  In JNull items -> user_content items = Thrown.
Proof.
  induction items as [|item rest IH]; [intros []|].
  intros [-> | Hin]; [reflexivity|].
  cbn [user_content]. rewrite (IH Hin).
  destruct (get_prop item (js "type")) as [ty|]; [|reflexivity]. cbn [bind].
  destruct (is_string ty (js "tool_result")); [|reflexivity].
  destruct (get_prop item (js "content")) as [c|]; [|reflexivity]. cbn [bind].
  destruct (content_text _); [|reflexivity]. cbn [bind].
  destruct (get_prop item (js "tool_use_id")); [|reflexivity]. cbn [bind].
  now destruct (get_prop item (js "is_error")).
Qed.

(** X21. Every decoded line is logged, classified or not.  A line
    that decodes to an object of an unknown type (or to a [system]
    object that is not an [init]) yields no event and moves no
    accumulator, yet its text and its object are appended to
    [raw_lines] and [events]; the same holds for an assistant or user
    line on which classification raises because its content holds a
    [null]. *)
Theorem unclassified_line_is_logged (p : ClaudeResponseParser) (line : jstr)
    (props : list (jstr * json)) :
  decodes_to line (JObject props) ->
  unclassified props = true \/ raising_turn props ->
  parse_line p line = (record_line p (trim line) (JObject props), None).
Proof.
  intros Hdec Hkind. rewrite (parse_line_decoded p Hdec).
  unfold classify. simpl get_prop. simpl bind.
  destruct Hkind as [Hun | (Hty & mprops & items & Hmsg & Hcontent & Hnull)].
  - unfold unclassified in Hun.
    repeat (apply andb_true_iff in Hun as [Hun ?]).
    repeat match goal with
           | H : negb _ = true |- _ => apply negb_true_iff in H; rewrite H
           end.
    reflexivity.
  - destruct (lookup props (js "type")) as [[| | |ty| |]|]; try discriminate.
    assert (Hsys : is_string (Some (JString ty)) (js "system") = false).
    { simpl in *. destruct (jstr_eqb ty (js "system")) eqn:E; [|reflexivity].
      apply jstr_eqb_eq in E. subst ty. discriminate Hty. }
    rewrite Hsys, Hmsg. cbn [andb or_default truthy get_prop bind].
    rewrite Hcontent. cbn [or_default truthy iterate bind].
    rewrite (assistant_content_null _ Hnull), (user_content_null _ Hnull).
    cbn [bind].
    destruct (is_string (Some (JString ty)) (js "assistant")); [reflexivity|].
    simpl in Hty. simpl. now rewrite Hty.
Qed.

(** X22. White space around a line does not matter.  Padding every
    line with white space on either side (a carriage return before the
    line feed, indentation, a byte-order mark) changes neither the
    events returned nor the state reached, logs included. *)
Theorem padding_is_ignored (p : ClaudeResponseParser) (lines : list jstr)
    (before after : jstr) :
  all_space before ->
  all_space after ->
  parse_lines p (List.map (fun l => before ++ l ++ after) lines) = parse_lines p lines.
Proof.
  intros Hb Ha. revert p; induction lines as [|l rest IH]; intros p; [reflexivity|].
  cbn [List.map]. rewrite !parse_lines_cons.
  assert (E : parse_line p (before ++ l ++ after) = parse_line p l).
  { rewrite <- (parse_line_trim p (before ++ l ++ after)), <- (parse_line_trim p l).
    now rewrite trim_space_left, trim_space_right. }
  now rewrite E, IH.
Qed.

(** X23. Init and result events are the decoded object, unchanged.
    Whenever [parse_line] returns a [SessionInit] or a [ResultSummary],
    the event is the object [JSON.parse] gave for the trimmed line, and
    that same object is what [system_init] / [result_summary] then
    hold: nothing is validated, completed or defaulted. *)
Theorem init_and_result_verbatim (p p' : ClaudeResponseParser) (line : jstr)
    (e : Event) :
  parse_line p line = (p', Some e) ->
  match e with
  | EvSystemInit d => JSON_parse (trim line) = Some d /\ system_init p' = Some d
  | EvResult d => JSON_parse (trim line) = Some d /\ result_summary p' = Some d
  | _ => True
  end.
Proof.
  intros H.
  destruct (parse_line_effect _ _ H) as [[_ [=]] | (data & Hlog & -> & _)].
  destruct Hlog as (_ & _ & _ & Hparse).
  revert H. unfold parse_line.
  destruct (negb (nonempty (trim line))); [discriminate|].
  destruct (negb (startsWith (trim line) [LBRACE])); [discriminate|].
  destruct (negb (endsWith (trim line) [RBRACE])); [discriminate|].
  rewrite Hparse.
  destruct (classify _ data) as [[p1 ev1]|] eqn:Hc; [|discriminate].
  intros [= Hp1 ->]. clear Hp1.
  revert Hc. unfold classify, as_ResultSummary.
  destruct data as [| | | | |props]; simpl; try discriminate.
  destruct (is_string (lookup props (js "type")) (js "system")
            && is_string (lookup props (js "subtype")) (js "init")).
  { intros [= _ <-]. now split. }
  destruct (is_string (lookup props (js "type")) (js "assistant")).
  { destruct (get_prop _ (js "content")) as [c|]; simpl; [|discriminate].
    destruct (iterate _) as [items|]; simpl; [|discriminate].
    destruct (assistant_content items); simpl; [|discriminate].
    now intros [= _ <-]. }
  destruct (is_string (lookup props (js "type")) (js "user")).
  { destruct (get_prop _ (js "content")) as [c|]; simpl; [|discriminate].
    destruct (iterate _) as [items|]; simpl; [|discriminate].
    destruct (user_content items); simpl; [|discriminate].
    now intros [= _ <-]. }
  destruct (is_string (lookup props (js "type")) (js "result")).
  { intros [= _ <-]. now split. }
  discriminate.
Qed.

End SimpleClaude.

(* ================================================================== *)
(** * Worked examples *)
(* ================================================================== *)

(** The string primitives on small inputs. *)
Example trim_example : trim (js "  a b " ++ [13%N; 10%N]) = js "a b".
Proof. reflexivity. Qed.

Example split_example :
  split (js "a" ++ [NL] ++ js "b" ++ [NL]) NL = [js "a"; js "b"; []].
Proof. reflexivity. Qed.

Example indexOf_example :
  indexOf (js "ab" ++ [NL] ++ js "c") NL = 2%Z /\ indexOf (js "abc") NL = (-1)%Z.
Proof. split; reflexivity. Qed.

Example substring_example :
  substring (js "abcdef") 0 2 = js "ab" /\ substring_from (js "abcdef") 3 = js "def".
Proof. split; reflexivity. Qed.

Example json_decode_example :
  json_decode (js " {'a': [1, -2.5, 3e2, true, null], 'b': {'c': 'x'}} ")
  = Some (JObject [(js "a", JArray [JNumber 1; JNumber (-5 # 2); JNumber 300;
                                    JBool true; JNull]);
                   (js "b", JObject [(js "c", JString (js "x"))])]).
Proof. reflexivity. Qed.

Example number_to_string_example :
  List.map number_to_string [0; 300; 1 # 100; -5 # 2]
  = [js "0"; js "300"; js "0.01"; js "-2.5"].
Proof. reflexivity. Qed.

(** A line of an unknown type is recorded in the two logs and yields no
    event. *)
Example unknown_type_example :
  let r := parse_line json_decode number_to_string new_parser (js "{'type':'other'}") in
  snd r = None /\ raw_lines (fst r) = [js "{'type':'other'}"]
  /\ List.length (events (fst r)) = 1%nat.
Proof. vm_compute. repeat split. Qed.

(** Reading [.type] of a [null] item raises; the outer [catch] turns
    that into [null], after the line has been recorded. *)
Example null_item_example :
  let r := parse_line json_decode number_to_string new_parser
             (js "{'type':'user','message':{'content':[null]}}") in
  snd r = None /\ user_responses (fst r) = [] /\ List.length (raw_lines (fst r)) = 1%nat.
Proof. vm_compute. repeat split. Qed.

(** In raw mode the reassembler yields the trimmed lines that start
    with a brace and parses nothing. *)
Example raw_mode_example :
  stream_parse_generator json_decode number_to_string
    [js "  {'type':'x'} " ++ [NL] ++ js "chatter" ++ [NL] ++ js "{'typ"; js "e':1"]
    {| buffer_size := 65536; timeout_between_chunks := 30; yield_raw := true |}
  = [YRaw (js "{'type':'x'}"); YRaw (js "{'type':1")].
Proof. reflexivity. Qed.

(** The end-to-end scenario: the two-line stream gives a [SessionInit]
    with identifier [s1], no assistant or user turn, a cost of 0.01 and
    a success. *)
Lemma end_to_end_scenario :
  let p := fst (parse_stream json_decode number_to_string new_parser two_line_stream) in
  prop_or_undefined (system_init p) (js "session_id") = Some (JString (js "s1"))
  /\ assistant_responses p = [] /\ user_responses p = []
  /\ get_cost p = Some (JNumber (1 # 100))
  /\ was_successful p = Ret true.
Proof. vm_compute. repeat split. Qed.

(** C1 on the two-line stream cut in the middle of both lines. *)
Lemma chunk_boundary_invariance_witness :
  stream_parse json_decode number_to_string
    {| config := DEFAULT_STREAM_CONFIG; buffer := []; parser := new_parser |}
    two_line_chunks
  = ({| config := DEFAULT_STREAM_CONFIG; buffer := [];
        parser := fst (parse_stream json_decode number_to_string new_parser
                                    two_line_stream) |},
     List.map YEvent
       (parse_stream_events json_decode number_to_string new_parser two_line_stream)).
Proof. apply chunk_boundary_invariance; reflexivity. Defined.

(** C2 on the truncated line, followed by a valid line. *)
Lemma rejection_is_silent_witness :
  parse_line json_decode number_to_string new_parser (js "{'type':'assistant'")
  = (new_parser, None)
  /\ parse_lines json_decode number_to_string new_parser
       [js "{'type':'assistant'"; init_line]
     = parse_lines json_decode number_to_string new_parser [init_line].
Proof.
  apply rejection_is_silent. right; right; right. reflexivity.
Defined.



(** C4. Fail-safe result summary: the code on a result line that lacks
    fields.  The line [{'type':'result','subtype':'success'}] is
    accepted, the summary is the decoded object as it stands (no
    [is_error], no numeric field, no default filled in), and
    [was_successful] reports a success; the summary of the [catch]
    clause, which would carry [is_error = true] and zeros, is not the
    one that is stored. *)
Theorem result_missing_fields_reported_successful :
  let data := JObject [(js "type", JString (js "result"));
                       (js "subtype", JString (js "success"))] in
  let r := parse_line json_decode number_to_string new_parser result_line_bare in
  snd r = Some (EvResult data)
  /\ result_summary (fst r) = Some data
  /\ prop_or_undefined (result_summary (fst r)) (js "is_error") = None
  /\ prop_or_undefined (result_summary (fst r)) (js "duration_ms") = None
  /\ prop_or_undefined (result_summary (fst r)) (js "total_cost_usd") = None
  /\ was_successful (fst r) = Ret true
  /\ (exists fallback,
        minimal_result_summary data = Ret (JObject fallback)
        /\ lookup fallback (js "is_error") = Some (JBool true)
        /\ lookup fallback (js "duration_ms") = Some (JNumber 0)
        /\ result_summary (fst r) <> Some (JObject fallback)).
Proof.
  vm_compute. repeat split. eexists. repeat split. discriminate.
Qed.

(** C5 on the state left by the complete result line. *)
Lemma success_predicate_witness :
  let p := fst (parse_line json_decode number_to_string new_parser result_line_ok) in
  summary_typed p
  /\ exists b, was_successful p = Ret b /\ (b = true <-> success_spec p).
Proof.
  assert (H : summary_typed
                (fst (parse_line json_decode number_to_string new_parser result_line_ok)))
    by (exists false; reflexivity).
  split; [exact H | exact (@success_predicate _ H)].
Defined.

(** C10 on a result that cost nothing and on one that cost 0.01. *)
Lemma get_cost_zero_is_null_witness :
  get_cost (fst (parse_line json_decode number_to_string new_parser result_line_free))
  = Some JNull
  /\ get_cost (fst (parse_line json_decode number_to_string new_parser result_line_ok))
     = Some (JNumber (1 # 100)).
Proof.
  split.
  - eapply (proj1 (proj2 (get_cost_zero_is_null _))); reflexivity.
  - eapply (proj2 (proj2 (proj2 (get_cost_zero_is_null _))));
      [reflexivity | reflexivity | discriminate].
Defined.



(** When the write of the session file fails after a command that
    completed, the request is already recorded and the session already
    updated; the retry runs the command again, so that the call, which
    then returns, has recorded twice and taken the response in twice. *)
Example write_failure_is_retried :
  let '(res, api', _, tr) :=
    execute json_decode number_to_string env_first_write_fails
            (new_api saving_config 0) 0 in
  res = Returned (parse_claude_stream json_decode number_to_string two_line_stream)
  /\ List.map fst (runs_of tr) = [0; 1]%nat
  /\ count_records tr = 2%nat
  /\ option_map requests_this_minute (rate_limiter api') = Some 2%Z
  /\ List.length (responses_of json_decode number_to_string tr) = 2%nat.
Proof. vm_compute. repeat split. Qed.

(** When no write succeeds, [execute] raises the error of the last
    write, after four commands that completed: the session holds the
    identifier of their [SessionInit] and the limiter has counted four
    requests. *)
Example write_failure_is_raised :
  let '(res, api', _, tr) :=
    execute json_decode number_to_string env_unwritable (new_api saving_config 0) 0 in
  res = Raised (js "Error")
  /\ count_runs tr = 4%nat /\ count_records tr = 4%nat
  /\ option_map requests_this_hour (rate_limiter api') = Some 4%Z
  /\ option_map session_id (session api') = Some (Some (JString (js "s1"))).
Proof. vm_compute. repeat split. Qed.



(** C8 as stated fails: the minute window is more than 60 s old and is
    reset by the check, yet the check reports a delay, because the hour
    window is full. *)
Lemma rate_limit_windowing_counterexample :
  (1201000 - minute_reset_time hour_saturated > 60000)%Z
  /\ (let (s', r) := should_delay hour_saturated DEFAULT_RATE_LIMIT_CONFIG 1201000 in
      requests_this_minute s' = 0%Z /\ minute_reset_time s' = 1201000%Z
      /\ fst r = true /\ snd r == 2399).
Proof. vm_compute. repeat split. Qed.

(** C8, amended, on a fresh limiter with a ceiling of 2 per minute. *)
Lemma rate_limit_windowing_witness :
  (exists d,
      snd (should_delay
             (record_request (record_request (new_rate_limit_state 0) 1000) 2000)
             (with_minute_ceiling 2) 3000)
      = (true, d) /\ 0 < d /\ d <= 60)
  /\ (let (s', r) :=
        should_delay (record_request (record_request (new_rate_limit_state 0) 1000) 2000)
                     (with_minute_ceiling 2) 61000 in
      requests_this_minute s' = 0%Z /\ minute_reset_time s' = 61000%Z
      /\ ((0 < requests_per_minute (with_minute_ceiling 2))%Z ->
          (requests_this_hour s' < requests_per_hour (with_minute_ceiling 2))%Z ->
          r = (false, 0))).
Proof.
  split.
  - apply (proj1 rate_limit_windowing); [reflexivity | simpl; lia | simpl; lia].
  - apply (proj1 (proj2 rate_limit_windowing)
             (record_request (record_request (new_rate_limit_state 0) 1000) 2000)
             (with_minute_ceiling 2) 61000%Z).
    simpl. lia.
Defined.

(* ================================================================== *)
(** * Instances of the further properties *)
(* ================================================================== *)

(** X3 on the two-line stream cut in the middle of both lines. *)
Lemma raw_response_round_trip_witness :
  let r := get_response
             (fst (stream_parse json_decode number_to_string
                     (new_streaming_parser DEFAULT_STREAM_CONFIG) two_line_chunks)) in
  parse_claude_stream json_decode number_to_string (raw_response r) = r.
Proof. apply raw_response_round_trip. reflexivity. Defined.


(** X6 on the two-line stream in raw mode. *)
Lemma raw_mode_parses_nothing_witness :
  stream_parse json_decode number_to_string
    {| config := raw_stream_config; buffer := []; parser := new_parser |} two_line_chunks
  = ({| config := raw_stream_config; buffer := []; parser := new_parser |},
     List.map YRaw (filter (fun l => startsWith l [LBRACE])
                           (List.map trim (split (List.concat two_line_chunks) NL)))).
Proof. apply raw_mode_parses_nothing. reflexivity. Defined.

(** X7 on a complete object that has not been followed by a newline. *)
Lemma chunk_without_newline_witness :
  parse_chunk json_decode number_to_string
    (new_streaming_parser DEFAULT_STREAM_CONFIG) init_line
  = ({| config := DEFAULT_STREAM_CONFIG; buffer := init_line; parser := new_parser |}, []).
Proof.
  apply (@chunk_without_newline json_decode number_to_string
           (new_streaming_parser DEFAULT_STREAM_CONFIG) init_line); reflexivity.
Defined.

(** X9 on a history of three turns. *)
Lemma get_context_suffix_witness :
  List.length (get_context session_example (Some 2%Z)) = 2%nat
  /\ get_context session_example (Some (-1)%Z) = [turn_example "b"; turn_example "c"].
Proof.
  split.
  - apply (proj2 (proj1 (proj2 (proj2 (proj2 (get_context_suffix session_example)))) 2%Z
                        ltac:(lia))).
  - apply (proj2 (proj2 (proj2 (proj2 (get_context_suffix session_example)))) (-1)%Z).
    lia.
Defined.



(** X13 on the plain [Error] of [_run_command] under the default
    configuration. *)
Lemma unlisted_error_not_retried_witness :
  let '(res, api', _, tr) :=
    execute json_decode number_to_string env_failure (new_api DEFAULT_API_CONFIG 0) 0 in
  res = Raised (js "Error")
  /\ tr = [ActCheckLimit 0; ActRunCommand 0 (Rejected (js "Error"))]
  /\ session api' = session (new_api DEFAULT_API_CONFIG 0).
Proof.
  pose proof (@unlisted_error_not_retried json_decode number_to_string env_failure
                (new_api DEFAULT_API_CONFIG 0) 0%Z (js "Error") eq_refl eq_refl) as H.
  destruct (execute _ _ env_failure _ _) as [[[res api'] clock'] tr].
  destruct H as (Hres & Htr & Hs & _).
  split; [exact Hres|]. split; [exact Htr | exact Hs].
Defined.

(** X14 on timeouts under the default retry configuration: four
    attempts, and sleeps of 1 s, 2 s and 4 s between them. *)
Lemma retries_exhausted_witness :
  let '(res, api', _, tr) :=
    execute json_decode number_to_string env_timeouts
            (api_with_retry DEFAULT_RETRY_CONFIG) 0 in
  res = Raised (js "TimeoutError")
  /\ List.map fst (runs_of tr) = [0; 1; 2; 3]%nat
  /\ List.length (sleeps_of tr) = 3%nat.
Proof.
  pose proof (@retries_exhausted json_decode number_to_string env_timeouts
                (api_with_retry DEFAULT_RETRY_CONFIG) 0%Z eq_refl) as H.
  destruct (execute _ _ env_timeouts _ _) as [[[res api'] clock'] tr].
  destruct H as ((e & He & Hres) & _ & _ & Hruns & Hsleeps).
  - intros k _. exists (js "TimeoutError"). split; reflexivity.
  - split; [|split].
    + rewrite Hres. f_equal. now injection He.
    + exact Hruns.
    + rewrite Hsleeps. reflexivity.
Defined.

(** X15 under the default retry configuration. *)
Lemma retry_delay_bounds_witness :
  0 <= _calculate_retry_delay (api_with_retry DEFAULT_RETRY_CONFIG) 5
  /\ _calculate_retry_delay (api_with_retry DEFAULT_RETRY_CONFIG) 5
     <= _calculate_retry_delay (api_with_retry DEFAULT_RETRY_CONFIG) 6.
Proof.
  split.
  - apply (proj1 (proj2 (retry_delay_bounds (api_with_retry DEFAULT_RETRY_CONFIG) 5)));
      vm_compute; discriminate.
  - apply (proj2 (proj2 (retry_delay_bounds (api_with_retry DEFAULT_RETRY_CONFIG) 5)));
      vm_compute; discriminate.
Defined.



(** X20 on four custom flags: the temperature and the valueless
    [--max-tokens] pass, [--model] and the unlisted [--top-p] do not. *)
Lemma default_custom_flags_witness :
  _build_command command_config_example (js "hello")
  = base_command ++ [js "--model"; js "sonnet"]
    ++ [js "--temperature"; js "0.5"; js "--max-tokens"] ++ [js "hello"].
Proof.
  exact (proj1 (@default_custom_flags command_config_example
                  [(js "--temperature", js "0.5"); (js "--model", js "opus");
                   (js "--top-p", js "1"); (js "--max-tokens", [])]
                  (js "hello") eq_refl)).
Defined.

(** X21 on a line of an unknown type and on a user line whose content
    holds [null]. *)
Lemma unclassified_line_is_logged_witness :
  parse_line json_decode number_to_string new_parser (js " {'type':'other'} ")
  = (record_line new_parser (js "{'type':'other'}")
                 (JObject [(js "type", JString (js "other"))]), None)
  /\ parse_line json_decode number_to_string new_parser
       (js "{'type':'user','message':{'content':[null]}}")
     = (record_line new_parser (js "{'type':'user','message':{'content':[null]}}")
          (JObject [(js "type", JString (js "user"));
                    (js "message", JObject [(js "content", JArray [JNull])])]), None).
Proof.
  split.
  - apply (@unclassified_line_is_logged json_decode number_to_string new_parser
             (js " {'type':'other'} ") [(js "type", JString (js "other"))]).
    + repeat split.
    + left. reflexivity.
  - apply (@unclassified_line_is_logged json_decode number_to_string new_parser
             (js "{'type':'user','message':{'content':[null]}}")
             [(js "type", JString (js "user"));
              (js "message", JObject [(js "content", JArray [JNull])])]).
    + repeat split.
    + right. split; [reflexivity|].
      eexists. eexists. repeat split. now left.
Defined.

(** X22 on the conversation with indented lines that end in a carriage
    return. *)
Lemma padding_is_ignored_witness :
  parse_lines json_decode number_to_string new_parser
    (List.map (fun l => js "  " ++ l ++ [CR]) (split conversation_stream NL))
  = parse_lines json_decode number_to_string new_parser (split conversation_stream NL).
Proof.
  apply (@padding_is_ignored json_decode number_to_string new_parser
           (split conversation_stream NL) (js "  ") [CR]);
    repeat constructor.
Defined.

(** X23 on the init line. *)
Lemma init_and_result_verbatim_witness :
  json_decode (trim init_line)
  = Some (JObject [(js "type", JString (js "system")); (js "subtype", JString (js "init"));
                   (js "session_id", JString (js "s1"))])
  /\ system_init (fst (parse_line json_decode number_to_string new_parser init_line))
     = Some (JObject [(js "type", JString (js "system"));
                      (js "subtype", JString (js "init"));
                      (js "session_id", JString (js "s1"))]).
Proof.
  exact (@init_and_result_verbatim json_decode number_to_string new_parser
           (fst (parse_line json_decode number_to_string new_parser init_line))
           init_line
           (EvSystemInit
              (JObject [(js "type", JString (js "system"));
                        (js "subtype", JString (js "init"));
                        (js "session_id", JString (js "s1"))]))
           eq_refl).
Defined.
